(** * makisu: Dockerfile argument splitting, ENTRYPOINT forms and command execution

    A shallow embedding of [lib/parser/dockerfile/split_args.go],
    [lib/parser/dockerfile/entrypoint.go] and of [ExecCommand] of the [shell]
    package, followed by the properties established about them.

    Go strings are byte sequences: they are modelled by [string], whose
    characters ([ascii]) are exactly the 256 byte values.  A [rune] is an
    [int32], modelled by [Z]. *)

From Stdlib Require Import ZArith List Bool Lia.
From Stdlib Require Import Ascii String DecimalString.
Import ListNotations.

Local Open Scope Z_scope.

(** ** Go primitives used by the sources *)

Definition rune := Z.

(** [rune(input[i])]: a byte is converted to the code point of the same value. *)
Definition runeOfByte (b : ascii) : rune := Z.of_N (N_of_ascii b).

Definition byteOfZ (z : Z) : ascii := ascii_of_N (Z.to_N z).

(** The runes the tokenizer compares against. *)
Definition rQuote : rune := 34.      (* the double quote *)
Definition rBackslash : rune := 92.  (* the backslash *)
Definition rAmp : rune := 38.        (* & *)
Definition rPipe : rune := 124.      (* | *)
Definition rSemi : rune := 59.       (* ; *)

Definition bQuote : ascii := Eval cbv in byteOfZ rQuote.
Definition bBackslash : ascii := Eval cbv in byteOfZ rBackslash.

(** [unicode.IsSpace]: Latin-1 is special-cased, everything above is looked up
    in the White_Space table (of which only the entries above Latin-1 remain). *)
Definition isExcludingLatin_White_Space (r : rune) : bool :=
  (r =? 0x1680) || ((0x2000 <=? r) && (r <=? 0x200a))
  || ((0x2028 <=? r) && (r <=? 0x2029))
  || (r =? 0x202f) || (r =? 0x205f) || (r =? 0x3000).

Definition IsSpace (r : rune) : bool :=
  if (0 <=? r) && (r <=? 0xFF) then
    (r =? 9) || (r =? 10) || (r =? 11) || (r =? 12) || (r =? 13)
    || (r =? 32) || (r =? 0x85) || (r =? 0xA0)
  else isExcludingLatin_White_Space r.

(** [string(r)] for a rune [r]: the UTF-8 encoding of the code point, and
    U+FFFD for anything that is not a valid code point. *)
Definition runeToString (r : rune) : string :=
  if (r <? 0) || (0x10FFFF <? r) || ((0xD800 <=? r) && (r <=? 0xDFFF)) then
    String (byteOfZ 0xEF) (String (byteOfZ 0xBF) (String (byteOfZ 0xBD) EmptyString))
  else if r <? 0x80 then
    String (byteOfZ r) EmptyString
  else if r <? 0x800 then
    String (byteOfZ (Z.lor 0xC0 (Z.shiftr r 6)))
      (String (byteOfZ (Z.lor 0x80 (Z.land r 0x3F))) EmptyString)
  else if r <? 0x10000 then
    String (byteOfZ (Z.lor 0xE0 (Z.shiftr r 12)))
      (String (byteOfZ (Z.lor 0x80 (Z.land (Z.shiftr r 6) 0x3F)))
        (String (byteOfZ (Z.lor 0x80 (Z.land r 0x3F))) EmptyString))
  else
    String (byteOfZ (Z.lor 0xF0 (Z.shiftr r 18)))
      (String (byteOfZ (Z.lor 0x80 (Z.land (Z.shiftr r 12) 0x3F)))
        (String (byteOfZ (Z.lor 0x80 (Z.land (Z.shiftr r 6) 0x3F)))
          (String (byteOfZ (Z.lor 0x80 (Z.land r 0x3F))) EmptyString))).

(** [len(s) > 0] on a string. *)
Definition nonEmpty (s : string) : bool :=
  match s with EmptyString => false | String _ _ => true end.

(** [strings.Join(elems, sep)]. *)
Fixpoint Join (elems : list string) (sep : string) : string :=
  match elems with
  | [] => EmptyString
  | [e] => e
  | e :: rest => (e ++ sep ++ Join rest sep)%string
  end.

(** A Go [(T, error)] result; an [error] of these packages built by
    [errors.New] or [fmt.Errorf] is its message. *)
Inductive result (A : Type) : Type :=
| Ok (a : A)
| Err (msg : string).
Arguments Ok {A} a.
Arguments Err {A} msg.

Definition bind {A B : Type} (m : result A) (k : A -> result B) : result B :=
  match m with
  | Ok a => k a
  | Err e => Err e
  end.

(** ** Package dockerfile: split_args.go *)

Module dockerfile.

(** [splitArgsBase]: the data shared (through one pointer) by every state. *)
Record splitArgsBase : Type := mkBase {
  args : list string;
  currArg : string;
  escaped : bool;
  forShell : bool
}.

Definition setArgs (s : splitArgsBase) (a : list string) : splitArgsBase :=
  mkBase a (currArg s) (escaped s) (forShell s).
Definition setCurrArg (s : splitArgsBase) (c : string) : splitArgsBase :=
  mkBase (args s) c (escaped s) (forShell s).
Definition setEscaped (s : splitArgsBase) (e : bool) : splitArgsBase :=
  mkBase (args s) (currArg s) e (forShell s).

(** The five implementations of the [splitArgsState] interface.  Each wraps
    the same [*splitArgsBase], so a state is its kind and the base. *)
Inductive stateKind : Type :=
| splitArgsStateSpace
| splitArgsStateArg
| splitArgsStateQuote
| splitArgsStateEndQuote
| splitArgsStateShellCharacters.

Record splitArgsState : Type := mkState {
  kind : stateKind;
  base : splitArgsBase
}.

(** [r == '&' || r == '|' || r == ';'] *)
Definition isShellChar (r : rune) : bool :=
  (r =? rAmp) || (r =? rPipe) || (r =? rSemi).

(** [if len(s.currArg) > 0 { s.args = append(s.args, s.currArg) }] *)
Definition flushNonEmpty (s : splitArgsBase) : splitArgsBase :=
  if nonEmpty (currArg s) then setArgs s (args s ++ [currArg s]) else s.

(** [s.currArg += t] *)
Definition addCurrArg (s : splitArgsBase) (t : string) : splitArgsBase :=
  setCurrArg s (currArg s ++ t)%string.

Definition splitArgsStateSpace_nextRune (s : splitArgsBase) (r : rune)
  : result splitArgsState :=
  if IsSpace r then
    Ok (mkState splitArgsStateSpace s)
  else if r =? rQuote then
    let s := if forShell s then addCurrArg s (String bQuote EmptyString) else s in
    Ok (mkState splitArgsStateQuote s)
  else if r =? rBackslash then
    let s := setEscaped s true in
    Ok (mkState splitArgsStateArg s)
  else if forShell s && isShellChar r then
    let s := flushNonEmpty s in
    let s := setCurrArg s (runeToString r) in
    Ok (mkState splitArgsStateShellCharacters s)
  else
    let s := addCurrArg s (runeToString r) in
    Ok (mkState splitArgsStateArg s).

Definition splitArgsStateSpace_endOfInput (s : splitArgsBase)
  : result (list string) :=
  Ok (args s).

Definition splitArgsStateArg_nextRune (s : splitArgsBase) (r : rune)
  : result splitArgsState :=
  if escaped s then
    let s := if negb (IsSpace r) && negb (r =? rQuote)
             then addCurrArg s (String bBackslash EmptyString) else s in
    let s := setEscaped s false in
    let s := addCurrArg s (runeToString r) in
    Ok (mkState splitArgsStateArg s)
  else if IsSpace r then
    let s := setArgs s (args s ++ [currArg s]) in
    let s := setCurrArg s EmptyString in
    Ok (mkState splitArgsStateSpace s)
  else if forShell s && isShellChar r then
    let s := flushNonEmpty s in
    let s := setCurrArg s (runeToString r) in
    Ok (mkState splitArgsStateShellCharacters s)
  else
    let s := addCurrArg s (runeToString r) in
    Ok (mkState splitArgsStateArg s).

Definition splitArgsStateArg_endOfInput (s : splitArgsBase)
  : result (list string) :=
  Ok (args s ++ [currArg s]).

Definition splitArgsStateQuote_nextRune (s : splitArgsBase) (r : rune)
  : result splitArgsState :=
  if escaped s then
    let s := if negb (r =? rQuote) || forShell s
             then addCurrArg s (String bBackslash EmptyString) else s in
    let s := setEscaped s false in
    let s := addCurrArg s (runeToString r) in
    Ok (mkState splitArgsStateQuote s)
  else if r =? rBackslash then
    let s := setEscaped s true in
    Ok (mkState splitArgsStateQuote s)
  else if r =? rQuote then
    let s := if forShell s then addCurrArg s (String bQuote EmptyString) else s in
    let s := setArgs s (args s ++ [currArg s]) in
    let s := setCurrArg s EmptyString in
    Ok (mkState splitArgsStateEndQuote s)
  else
    let s := addCurrArg s (runeToString r) in
    Ok (mkState splitArgsStateQuote s).

Definition splitArgsStateQuote_endOfInput (s : splitArgsBase)
  : result (list string) :=
  Err ("unexpected termination: missing '" ++ String bQuote "' after argument: "
       ++ currArg s)%string.

(** The condition is written [s.forShell && r == '&' || r == '|' || r == ';']
    in the source; [&&] binds tighter than [||] in Go. *)
Definition splitArgsStateEndQuote_nextRune (s : splitArgsBase) (r : rune)
  : result splitArgsState :=
  if negb (IsSpace r) then
    if (forShell s && (r =? rAmp)) || (r =? rPipe) || (r =? rSemi) then
      let s := setCurrArg s (runeToString r) in
      Ok (mkState splitArgsStateShellCharacters s)
    else
      Err "missing whitespace after argument"%string
  else
    Ok (mkState splitArgsStateSpace s).

Definition splitArgsStateEndQuote_endOfInput (s : splitArgsBase)
  : result (list string) :=
  Ok (args s).

Definition splitArgsStateShellCharacters_nextRune (s : splitArgsBase) (r : rune)
  : result splitArgsState :=
  if negb (forShell s) then
    Err "not in a shell"%string
  else if negb (r =? rAmp) && negb (r =? rPipe) && negb (r =? rSemi) then
    let s := flushNonEmpty s in
    if IsSpace r then
      let s := setCurrArg s EmptyString in
      Ok (mkState splitArgsStateSpace s)
    else
      let s := setCurrArg s (runeToString r) in
      Ok (mkState splitArgsStateSpace s)
  else
    let s := addCurrArg s (runeToString r) in
    Ok (mkState splitArgsStateShellCharacters s).

Definition splitArgsStateShellCharacters_endOfInput (s : splitArgsBase)
  : result (list string) :=
  Ok (args s).

(** Dispatch of the interface methods on the dynamic type of the state. *)
Definition nextRune (st : splitArgsState) (r : rune) : result splitArgsState :=
  match kind st with
  | splitArgsStateSpace => splitArgsStateSpace_nextRune (base st) r
  | splitArgsStateArg => splitArgsStateArg_nextRune (base st) r
  | splitArgsStateQuote => splitArgsStateQuote_nextRune (base st) r
  | splitArgsStateEndQuote => splitArgsStateEndQuote_nextRune (base st) r
  | splitArgsStateShellCharacters => splitArgsStateShellCharacters_nextRune (base st) r
  end.

Definition endOfInput (st : splitArgsState) : result (list string) :=
  match kind st with
  | splitArgsStateSpace => splitArgsStateSpace_endOfInput (base st)
  | splitArgsStateArg => splitArgsStateArg_endOfInput (base st)
  | splitArgsStateQuote => splitArgsStateQuote_endOfInput (base st)
  | splitArgsStateEndQuote => splitArgsStateEndQuote_endOfInput (base st)
  | splitArgsStateShellCharacters => splitArgsStateShellCharacters_endOfInput (base st)
  end.

(** The loop [for i := 0; i < len(input); i++] of [splitArgs], from the state
    reached so far: one byte at a time, leaving at the first error. *)
Fixpoint feed (st : splitArgsState) (input : string) : result splitArgsState :=
  match input with
  | EmptyString => Ok st
  | String b rest => bind (nextRune st (runeOfByte b)) (fun st' => feed st' rest)
  end.

Definition initialState (forShell : bool) : splitArgsState :=
  mkState splitArgsStateSpace (mkBase [] EmptyString false forShell).

Definition splitArgs (input : string) (forShell : bool) : result (list string) :=
  bind (feed (initialState forShell) input) endOfInput.

End dockerfile.

(** ** Package dockerfile: entrypoint.go *)

Module entrypoint.
Import dockerfile.

Section Directive.

(** The collaborators of the directive layer that [newEntrypointDirective]
    calls: the base directive with its argument string, the parsing state,
    variable replacement (which rewrites [base.Args] in place, here returning
    the rewritten base), the JSON-array primitive and the error wrapper
    [base.err]. *)
Variable baseDirective : Type.
Variable Args : baseDirective -> string.
Variable parsingState : Type.
Variable replaceVarsCurrStage : baseDirective -> parsingState -> result baseDirective.
Variable parseJSONArray : string -> option (list string).
Variable baseErr : baseDirective -> string -> string.

Record EntrypointDirective : Type := mkEntrypointDirective {
  directiveBase : baseDirective;
  Entrypoint : list string
}.

Definition newEntrypointDirective (base : baseDirective) (state : parsingState)
  : result EntrypointDirective :=
  bind (replaceVarsCurrStage base state) (fun base =>
    match parseJSONArray (Args base) with
    | Some entrypoint => Ok (mkEntrypointDirective base entrypoint)
    | None =>
        match splitArgs (Args base) true with
        | Err err => Err (baseErr base err)
        | Ok args =>
            let cmd := ["/bin/sh"; "-c"]%string ++ [Join args " "] in
            Ok (mkEntrypointDirective base cmd)
        end
    end).

End Directive.

End entrypoint.

(** ** Package shell: ExecCommand *)

Module shell.

Definition LF : string := String (byteOfZ 10) EmptyString.

(** [syscall.WaitStatus] on Linux. *)
Definition WaitStatus := Z.

Definition Exited (w : WaitStatus) : bool := Z.land w 0x7F =? 0.

Definition ExitStatus (w : WaitStatus) : Z :=
  if negb (Exited w) then -1 else Z.land (Z.shiftr w 8) 0xFF.

(** The errors [ExecCommand] returns: one built by [fmt.Errorf], or the
    [*exec.ExitError] of the finished process, which carries its wait status. *)
Inductive error : Type :=
| errorString (msg : string)
| ExitError (ws : WaitStatus).

(** A call of one of the two sinks [func(string, ...interface{})]. *)
Inductive stream : Type := outStream | errStream.

Inductive value : Type :=
| VInt (z : Z)
| VString (s : string).

Record call : Type := mkCall {
  callee : stream;
  format : string;
  operands : list value
}.

Record Credential : Type := mkCredential { Uid : Z; Gid : Z }.

Record SysProcAttr : Type := mkSysProcAttr {
  Setpgid : bool;
  credential : option Credential
}.

(** An [exec.Cmd]: besides what [ExecCommand] sets, the error of the path
    lookup made by [exec.Command], which [Start] returns. *)
Record Cmd : Type := mkCmd {
  Path : string;
  cmdArgs : list string;
  Dir : string;
  Env : list string;
  sysProcAttr : option SysProcAttr;
  lookPathErr : option string
}.

(** What the operating system answers: the environment, user resolution
    ([utils.ResolveChown]), starting the process, waiting for it, the error,
    if any, of copying its output into the pipes, and [exec.LookPath], which
    gives the path found for a name (empty if none) and its error. *)
Record OS : Type := mkOS {
  Environ : list string;
  ResolveChown : string -> result (Z * Z);
  processStart : Cmd -> option string;
  processWait : Cmd -> result WaitStatus;
  copyError : Cmd -> option string;
  LookPath : string -> string * option string
}.

Definition isSeparator (c : ascii) : bool := runeOfByte c =? 47.

Fixpoint dropSeparators (l : list ascii) : list ascii :=
  match l with
  | c :: rest => if isSeparator c then dropSeparators rest else l
  | [] => []
  end.

Fixpoint upToSeparator (l : list ascii) : list ascii :=
  match l with
  | c :: rest => if isSeparator c then [] else c :: upToSeparator rest
  | [] => []
  end.

(** [filepath.Base(path)] on Unix: the last element of the path, trailing
    slashes removed; a dot for the empty path, a slash for a path of slashes. *)
Definition Base (path : string) : string :=
  if nonEmpty path then
    match rev (upToSeparator (dropSeparators (rev (list_ascii_of_string path)))) with
    | [] => "/"%string
    | last => string_of_list_ascii last
    end
  else "."%string.

(** [exec.Command(name, arg...)]: a name without directory is looked up; the
    path found replaces it and the error of the lookup is kept. *)
Definition Command (os : OS) (name : string) (arg : list string) : Cmd :=
  let cmd := mkCmd name (name :: arg) EmptyString [] None None in
  if String.eqb (Base name) name then
    let (lp, err) := LookPath os name in
    mkCmd (if nonEmpty lp then lp else Path cmd) (cmdArgs cmd) (Dir cmd)
      (Env cmd) (sysProcAttr cmd) err
  else cmd.

(** [cmd.Start()]: the error of the lookup, if any, is returned before any
    process is started. *)
Definition Start (os : OS) (cmd : Cmd) : option string :=
  match lookPathErr cmd with
  | Some err => Some err
  | None => processStart os cmd
  end.

(** [cmd.Wait()]: a process that did not succeed becomes an [*exec.ExitError]. *)
Definition Wait (os : OS) (cmd : Cmd) : option error :=
  match processWait os cmd with
  | Err e => Some (errorString e)
  | Ok state =>
      if ExitStatus state =? 0
      then option_map errorString (copyError os cmd)
      else Some (ExitError state)
  end.

(** [strings.Split(user, ":")[0]]: what precedes the first colon. *)
Fixpoint beforeColon (user : string) : string :=
  match user with
  | EmptyString => EmptyString
  | String c rest =>
      if (runeOfByte c =? 58) then EmptyString else String c (beforeColon rest)
  end.

Definition uint32 (z : Z) : Z := z mod 2 ^ 32.

(** The first half of [ExecCommand]: the command with its directory, process
    group, credential and environment, or the error of user resolution. *)
Definition prepare (os : OS) (workingDir user cmdName : string)
    (args : list string) : error + Cmd :=
  let cmd := Command os cmdName args in
  let dir := if nonEmpty workingDir then workingDir else Dir cmd in
  let currentEnv := Environ os in
  if nonEmpty user then
    match ResolveChown os user with
    | Err err => inl (errorString ("cmd user resolve: " ++ err))
    | Ok (uid, gid) =>
        let attr := mkSysProcAttr true (Some (mkCredential (uint32 uid) (uint32 gid))) in
        let home := ("HOME=/home/" ++ beforeColon user)%string in
        inr (mkCmd (Path cmd) (cmdArgs cmd) dir (currentEnv ++ [home]) (Some attr)
               (lookPathErr cmd))
    end
  else
    inr (mkCmd (Path cmd) (cmdArgs cmd) dir currentEnv
           (Some (mkSysProcAttr true None)) (lookPathErr cmd)).

(** [ExecCommand]: the sink calls made by the function itself, in order, and
    the returned error ([None] for nil).  The two goroutines that drain the
    pipes into the sinks run independently of this flow; their calls are not
    part of the list. *)
Definition ExecCommand (os : OS) (workingDir user cmdName : string)
    (args : list string) : list call * option error :=
  match prepare os workingDir user cmdName args with
  | inl err => ([], Some err)
  | inr cmd =>
      match Start os cmd with
      | Some err => ([], Some (errorString ("cmd start: " ++ err)))
      | None =>
          match Wait os cmd with
          | Some (ExitError ws) =>
              let exitCode := ExitStatus ws in
              ([mkCall errStream ("Command exited with %d" ++ LF) [VInt exitCode]],
               Some (ExitError ws))
          | Some (errorString err) =>
              ([], Some (errorString ("cmd wait: " ++ err)))
          | None => ([], None)
          end
      end
  end.

(** [fmt.Sprintf] restricted to the verbs the sinks are called with,
    percent-d and percent-s. *)
Definition formatValue (v : value) : string :=
  match v with
  | VInt z => DecimalString.NilZero.string_of_int (Z.to_int z)
  | VString s => s
  end.

Fixpoint Sprintf (fmt : string) (vs : list value) : string :=
  match fmt with
  | EmptyString => EmptyString
  | String c rest =>
      if (runeOfByte c =? 37) then
        match rest, vs with
        | String verb rest', v :: vs' =>
            if (runeOfByte verb =? 100) || (runeOfByte verb =? 115)
            then (formatValue v ++ Sprintf rest' vs')%string
            else String c (Sprintf rest vs)
        | _, _ => String c (Sprintf rest vs)
        end
      else String c (Sprintf rest vs)
  end.

(** What one call of [reader.Read(buffer)] gives: the bytes read,
    [buffer[:n]], and the error, which is nil, [io.EOF] or another error. *)
Inductive readError : Type :=
| readNil
| readEOF
| readFailed (msg : string).

Record readResult : Type := mkRead {
  chunk : string;
  readErr : readError
}.

(** An [io.Reader], as the results of its successive reads. *)
Definition Reader := nat -> readResult.

(** [readerToStream(reader, stream)], from the [i]-th read on.  The loop of
    the source has no bound; [fuel] bounds the number of reads, and [None] is
    a loop still running when it is used up.  The result is the calls of the
    sink and the returned error. *)
Fixpoint readerToStream (fuel : nat) (reader : Reader) (i : nat)
    (callee : stream) : option (list call * option string) :=
  match fuel with
  | O => None
  | S fuel' =>
      let r := reader i in
      let calls :=
        if nonEmpty (chunk r)
        then [mkCall callee "%s" [VString (chunk r)]]
        else [] in
      match readErr r with
      | readEOF => Some (calls, None)
      | readFailed err => Some (calls, Some err)
      | readNil =>
          match readerToStream fuel' reader (S i) callee with
          | Some (calls', res) => Some (calls ++ calls', res)
          | None => None
          end
      end
  end.

(** The format with which each of the two goroutines of [ExecCommand]
    reports a failure of [readerToStream] to its own sink. *)
Definition failedToStream (callee : stream) : string :=
  match callee with
  | outStream => ("Failed to stream stdout from command: %s" ++ LF)%string
  | errStream => ("Failed to stream stderr from command: %s" ++ LF)%string
  end.

(** The body of the goroutine draining one pipe into its sink. *)
Definition streamGoroutine (fuel : nat) (reader : Reader) (callee : stream)
  : option (list call) :=
  match readerToStream fuel reader 0 callee with
  | None => None
  | Some (calls, Some err) =>
      Some (calls ++ [mkCall callee (failedToStream callee) [VString err]])
  | Some (calls, None) => Some calls
  end.


End shell.

(** * Vocabulary of the statements *)

Import dockerfile.
Import shell.

(** The one-character string holding a double quote. *)
Definition dq : string := String bQuote EmptyString.

(** A rune that, in plain mode, is neither a separator nor a double quote
    nor a backslash; a byte is classified through its rune. *)
Definition plainRune (r : rune) : bool :=
  negb (IsSpace r) && negb (r =? rQuote) && negb (r =? rBackslash).

Definition plainByte (b : ascii) : bool := plainRune (runeOfByte b).

Definition asciiByte (b : ascii) : bool := runeOfByte b <? 0x80.

Fixpoint allBytes (p : ascii -> bool) (w : string) : bool :=
  match w with
  | EmptyString => true
  | String b rest => p b && allBytes p rest
  end.






Ltac step_cases :=
  repeat match goal with
         | H : context [if ?c then _ else _] |- _ =>
             let E := fresh "E" in destruct c eqn:E
         | |- context [if ?c then _ else _] =>
             let E := fresh "E" in destruct c eqn:E
         end.

(** ** Inputs made of pieces *)

Definition spaceByte (b : ascii) : bool := IsSpace (runeOfByte b).

Definition shellCharByte (b : ascii) : bool := isShellChar (runeOfByte b).

Definition quoteFree (input : string) : bool :=
  allBytes (fun b => negb (runeOfByte b =? rQuote)) input.

(** A byte of an unquoted word: ASCII, no whitespace, double quote or
    backslash, and in shell mode no operator character. *)
Definition wordByte (forShell : bool) (b : ascii) : bool :=
  asciiByte b && plainByte b && negb (forShell && shellCharByte b).

Definition isWord (forShell : bool) (w : string) : bool :=
  nonEmpty w && allBytes (wordByte forShell) w.

Definition isSpaceRun (s : string) : bool :=
  nonEmpty s && allBytes spaceByte s.

Definition isOperatorRun (o : string) : bool :=
  nonEmpty o && allBytes shellCharByte o.

(** What stands between two double quotes: a byte other than the double
    quote and the backslash, or a backslash followed by any byte. *)
Inductive qitem : Type :=
| QByte (b : ascii)
| QEscape (b : ascii).

Definition validQitem (i : qitem) : bool :=
  match i with
  | QByte b =>
      asciiByte b && negb (runeOfByte b =? rQuote)
      && negb (runeOfByte b =? rBackslash)
  | QEscape b => asciiByte b
  end.

Fixpoint renderQuoted (q : list qitem) : string :=
  match q with
  | [] => EmptyString
  | QByte b :: rest => String b (renderQuoted rest)
  | QEscape b :: rest => String bBackslash (String b (renderQuoted rest))
  end.

(** The text a quoted region contributes to its token. *)
Fixpoint decodeQuoted (forShell : bool) (q : list qitem) : string :=
  match q with
  | [] => EmptyString
  | QByte b :: rest => String b (decodeQuoted forShell rest)
  | QEscape b :: rest =>
      if negb (runeOfByte b =? rQuote) || forShell
      then String bBackslash (String b (decodeQuoted forShell rest))
      else String b (decodeQuoted forShell rest)
  end.

Definition quotedToken (forShell : bool) (q : list qitem) : string :=
  if forShell then (dq ++ decodeQuoted forShell q ++ dq)%string
  else decodeQuoted forShell q.

(** The token of a word that opens with a backslash followed by [c]: the
    backslash is kept unless [c] is whitespace or a double quote. *)
Definition escapedToken (c : ascii) (w : string) : string :=
  if negb (IsSpace (runeOfByte c)) && negb (runeOfByte c =? rQuote)
  then String bBackslash (String c w)
  else String c w.

(** The pieces of an input: a word, a word opening with a backslash and any
    byte, a quoted string, a run of operators, and a word or quoted string
    with a run of operators right behind it. *)
Inductive piece : Type :=
| Word (w : string)
| EscapedWord (c : ascii) (w : string)
| Quoted (q : list qitem)
| Operator (o : string)
| WordOperator (w o : string)
| QuotedOperator (q : list qitem) (o : string).

Definition validPiece (forShell : bool) (p : piece) : bool :=
  match p with
  | Word w => isWord forShell w
  | EscapedWord c w => asciiByte c && allBytes (wordByte forShell) w
  | Quoted q => forallb validQitem q
  | Operator o => forShell && isOperatorRun o
  | WordOperator w o => forShell && isWord forShell w && isOperatorRun o
  | QuotedOperator q o => forShell && forallb validQitem q && isOperatorRun o
  end.

(** The pieces after which the input may end. *)
Definition closedPiece (p : piece) : bool :=
  match p with
  | Word _ | EscapedWord _ _ | Quoted _ => true
  | _ => false
  end.

Definition renderPiece (p : piece) : string :=
  match p with
  | Word w => w
  | EscapedWord c w => String bBackslash (String c w)
  | Quoted q => (dq ++ renderQuoted q ++ dq)%string
  | Operator o => o
  | WordOperator w o => (w ++ o)%string
  | QuotedOperator q o => (dq ++ renderQuoted q ++ dq ++ o)%string
  end.

Definition tokensOf (forShell : bool) (p : piece) : list string :=
  match p with
  | Word w => [w]
  | EscapedWord c w => [escapedToken c w]
  | Quoted q => [quotedToken forShell q]
  | Operator o => [o]
  | WordOperator w o => [w; o]
  | QuotedOperator q o => [quotedToken forShell q; o]
  end.

(** Pieces, each followed by its run of whitespace. *)
Fixpoint renderItems (items : list (piece * string)) : string :=
  match items with
  | [] => EmptyString
  | (p, sep) :: rest => (renderPiece p ++ sep ++ renderItems rest)%string
  end.

Definition validItems (forShell : bool) (items : list (piece * string)) : bool :=
  forallb (fun it => validPiece forShell (fst it) && isSpaceRun (snd it)) items.

Definition tokensOfItems (forShell : bool) (items : list (piece * string))
  : list string :=
  flat_map (fun it => tokensOf forShell (fst it)) items.

Definition renderLast (last : option piece) : string :=
  match last with
  | None => EmptyString
  | Some p => renderPiece p
  end.

Definition validLast (forShell : bool) (last : option piece) : bool :=
  match last with
  | None => true
  | Some p => validPiece forShell p && closedPiece p
  end.

Definition tokensOfLast (forShell : bool) (last : option piece) : list string :=
  match last with
  | None => []
  | Some p => tokensOf forShell p
  end.

(** The state reached from the space state, with tokens [a] and an empty
    current argument, once a piece is read. *)
Definition afterPiece (forShell : bool) (a : list string) (p : piece)
  : splitArgsState :=
  match p with
  | Word w => mkState splitArgsStateArg (mkBase a w false forShell)
  | EscapedWord c w =>
      mkState splitArgsStateArg (mkBase a (escapedToken c w) false forShell)
  | Quoted q =>
      mkState splitArgsStateEndQuote
        (mkBase (a ++ [quotedToken forShell q]) EmptyString false forShell)
  | Operator o => mkState splitArgsStateShellCharacters (mkBase a o false forShell)
  | WordOperator w o =>
      mkState splitArgsStateShellCharacters (mkBase (a ++ [w]) o false forShell)
  | QuotedOperator q o =>
      mkState splitArgsStateShellCharacters
        (mkBase (a ++ [quotedToken forShell q]) o false forShell)
  end.

(** A token still to come out of a state: the open argument, quoted region
    or operator run, or a current argument left in a state between tokens. *)
Definition pending (st : splitArgsState) : nat :=
  match kind st with
  | splitArgsStateSpace | splitArgsStateEndQuote =>
      if nonEmpty (currArg (base st)) then 1%nat else 0%nat
  | _ => 1%nat
  end.

(** The three error messages of the splitter. *)
Definition errMissingWhitespace : string := "missing whitespace after argument".
Definition errNotInShell : string := "not in a shell".
Definition errUnterminated (partial : string) : string :=
  ("unexpected termination: missing '" ++ dq ++ "' after argument: " ++ partial)%string.

(** The bytes of the reads [i] to [i + n], in order. *)
Fixpoint chunksFrom (reader : Reader) (i n : nat) : string :=
  match n with
  | O => chunk (reader i)
  | S n' => (chunk (reader i) ++ chunksFrom reader (S i) n')%string
  end.

(** What the sink prints for a list of calls. *)
Fixpoint printed (calls : list call) : string :=
  match calls with
  | [] => EmptyString
  | c :: rest => (Sprintf (format c) (operands c) ++ printed rest)%string
  end.

(** The states a run can be in while no double quote has been read. *)
Definition quoteless (st : splitArgsState) : bool :=
  match kind st with
  | splitArgsStateSpace | splitArgsStateArg => true
  | splitArgsStateShellCharacters => forShell (base st)
  | _ => false
  end.

(** The calls a sink receives for the reads [i] to [i + n]: one call for
    each read that gave at least one byte, with the format of a plain string
    and the bytes of that read, in the order of the reads. *)
Definition chunkCall (sink : stream) (s : string) : list call :=
  if nonEmpty s then [mkCall sink "%s" [VString s]] else [].

Fixpoint callsFrom (reader : Reader) (sink : stream) (i n : nat) : list call :=
  match n with
  | O => chunkCall sink (chunk (reader i))
  | S n' => chunkCall sink (chunk (reader i)) ++ callsFrom reader sink (S i) n'
  end.

(** A call that hands a non-empty chunk to the sink [sink]. *)
Definition isChunkCall (sink : stream) (c : call) : Prop :=
  callee c = sink /\ format c = "%s"%string
  /\ exists s, operands c = [VString s] /\ nonEmpty s = true.



Ltac base_cbn :=
  unfold addCurrArg, setArgs, setCurrArg, setEscaped;
  cbn [kind base args currArg escaped forShell nonEmpty bind].

Ltac unfold_nextRune :=
  unfold nextRune, splitArgsStateSpace_nextRune, splitArgsStateArg_nextRune,
    splitArgsStateQuote_nextRune, splitArgsStateEndQuote_nextRune,
    splitArgsStateShellCharacters_nextRune, flushNonEmpty, addCurrArg,
    setCurrArg, setArgs, setEscaped in *;
  cbn [kind base args currArg escaped forShell] in *.


(** ** Words of any bytes, and runs in plain mode *)






(** * Properties *)

(** ** Basic facts on bytes, runes and the transitions *)


Lemma feed_app (w1 w2 : string) (st : splitArgsState) :
  feed st (w1 ++ w2) = bind (feed st w1) (fun st' => feed st' w2).
Proof.
  revert st.
  induction w1 as [|b w1 IH]; intro st; simpl.
  - reflexivity.
  - destruct (nextRune st (runeOfByte b)) as [st'|e]; simpl.
    + apply IH.
    + reflexivity.
Qed.

(** ** Concrete runs of the tokenizer *)

(** C1 (as stated): four double quotes in plain mode do not tokenize to two
    empty tokens. *)
Lemma four_quotes_plain_not_two_empty_tokens :
  splitArgs (dq ++ dq ++ dq ++ dq) false <> Ok [EmptyString; EmptyString].
Proof.
  vm_compute. discriminate.
Qed.

(** C1 (amended): in plain mode, four adjacent double quotes are rejected with
    the error "missing whitespace after argument", because the second opening
    quote directly follows a closing quote; two quoted empty strings separated
    by a space tokenize to exactly two empty tokens. *)
Theorem quoted_empty_strings_need_whitespace :
  splitArgs (dq ++ dq ++ dq ++ dq) false = Err "missing whitespace after argument"
  /\ splitArgs (dq ++ dq ++ " " ++ dq ++ dq) false
     = Ok [EmptyString; EmptyString].
Proof.
  split; vm_compute; reflexivity.
Qed.

(** C2 (as stated): in plain mode the input a, double quote, b is not
    rejected. *)
Lemma quote_inside_word_plain_is_no_error :
  ~ exists msg, splitArgs ("a" ++ dq ++ "b") false = Err msg.
Proof.
  intros [msg H]. vm_compute in H. discriminate H.
Qed.

(** C2 (amended): in plain mode a double quote met inside an unquoted word is
    an ordinary character, so the input a, double quote, b succeeds with that
    single three-character token; the unterminated-argument error is raised
    when the unclosed quote opens the token, as in double quote, a, b. *)
Theorem quote_inside_word_plain_is_literal :
  (forall (a : list string) (c : string),
      splitArgsStateArg_nextRune (mkBase a c false false) rQuote
      = Ok (mkState splitArgsStateArg (mkBase a (c ++ dq) false false)))
  /\ splitArgs ("a" ++ dq ++ "b") false = Ok [("a" ++ dq ++ "b")%string]
  /\ splitArgs (dq ++ "ab") false
     = Err ("unexpected termination: missing '" ++ dq ++ "' after argument: ab").
Proof.
  split; [|split; vm_compute; reflexivity].
  intros a c. reflexivity.
Qed.

(** C3: at the end of input in the shell-characters state the pending operator
    is not appended: in shell mode [ls &&] yields the single token [ls]. *)
Theorem trailing_operator_dropped_at_end_of_input :
  splitArgs "ls &&" true = Ok ["ls"%string]
  /\ forall s : splitArgsBase,
       splitArgsStateShellCharacters_endOfInput s = Ok (args s).
Proof.
  split; [vm_compute; reflexivity | reflexivity].
Qed.

(** C4: after a run of operators the next character is stored as the new
    current argument but the machine returns to the space state, so a
    following space does not end that argument: in shell mode [a&&b c] yields
    [a], [&&], [bc]. *)
Theorem char_after_operator_not_terminated_by_space :
  splitArgs "a&&b c" true = Ok ["a"; "&&"; "bc"]%string
  /\ splitArgs "a&&b" true = Ok ["a"; "&&"]%string.
Proof.
  split; vm_compute; reflexivity.
Qed.

(** C5: in plain mode a pipe or a semicolon directly after a closing quote is
    accepted (only the ampersand is guarded by the shell flag): the quoted [a]
    followed by a pipe yields the token [a], and followed by [;b] fails with
    "not in a shell" rather than "missing whitespace after argument". *)
Theorem pipe_after_closing_quote_accepted_in_plain_mode :
  splitArgs (dq ++ "a" ++ dq ++ "|") false = Ok ["a"%string]
  /\ splitArgs (dq ++ "a" ++ dq ++ ";") false = Ok ["a"%string]
  /\ splitArgs (dq ++ "a" ++ dq ++ ";b") false = Err "not in a shell"
  /\ splitArgs (dq ++ "a" ++ dq ++ "&") false
     = Err "missing whitespace after argument"
  /\ (forall (a : list string) (c : string),
        splitArgsStateEndQuote_nextRune (mkBase a c false false) rPipe
        = Ok (mkState splitArgsStateShellCharacters (mkBase a "|" false false))
        /\ splitArgsStateEndQuote_nextRune (mkBase a c false false) rSemi
           = Ok (mkState splitArgsStateShellCharacters (mkBase a ";" false false))).
Proof.
  repeat split; vm_compute; reflexivity.
Qed.

(** ** The two forms of ENTRYPOINT *)

Section EntrypointForms.

Import entrypoint.

Variable baseDirective : Type.
Variable Args : baseDirective -> string.
Variable parsingState : Type.
Variable replaceVarsCurrStage : baseDirective -> parsingState -> result baseDirective.
Variable parseJSONArray : string -> option (list string).
Variable baseErr : baseDirective -> string -> string.

(** C6: once the variables are replaced, the raw argument string is resolved
    in exactly one of two ways.  If it parses as a JSON array of strings, the
    directive holds that array as it is (exec form).  Otherwise it is split
    for a shell: an error of the splitter is returned (through [base.err]), and
    a token list gives the three elements [/bin/sh], [-c] and the tokens
    joined by single spaces (shell form).  The cases exclude each other. *)
Theorem newEntrypointDirective_exec_or_shell_form
    (base base' : baseDirective) (state : parsingState)
    (Hvars : replaceVarsCurrStage base state = Ok base') :
  (forall arr, parseJSONArray (Args base') = Some arr ->
     newEntrypointDirective _ Args _ replaceVarsCurrStage parseJSONArray
       baseErr base state
     = Ok (mkEntrypointDirective _ base' arr))
  /\ (forall toks,
        parseJSONArray (Args base') = None ->
        splitArgs (Args base') true = Ok toks ->
        newEntrypointDirective _ Args _ replaceVarsCurrStage parseJSONArray
          baseErr base state
        = Ok (mkEntrypointDirective _ base'
                ["/bin/sh"%string; "-c"%string; Join toks " "])
        /\ List.length (Entrypoint _ (mkEntrypointDirective _ base'
                ["/bin/sh"%string; "-c"%string; Join toks " "])) = 3%nat)
  /\ (forall err,
        parseJSONArray (Args base') = None ->
        splitArgs (Args base') true = Err err ->
        newEntrypointDirective _ Args _ replaceVarsCurrStage parseJSONArray
          baseErr base state
        = Err (baseErr base' err))
  /\ ((exists arr, parseJSONArray (Args base') = Some arr)
      \/ (parseJSONArray (Args base') = None
          /\ exists toks, splitArgs (Args base') true = Ok toks)
      \/ (parseJSONArray (Args base') = None
          /\ exists err, splitArgs (Args base') true = Err err))
  /\ ~ ((exists arr, parseJSONArray (Args base') = Some arr)
        /\ parseJSONArray (Args base') = None).
Proof.
  unfold newEntrypointDirective. rewrite Hvars. simpl.
  split; [|split; [|split; [|split]]].
  - intros arr Harr. rewrite Harr. reflexivity.
  - intros toks Hnone Htoks. rewrite Hnone, Htoks. split; reflexivity.
  - intros err Hnone Herr. rewrite Hnone, Herr. reflexivity.
  - destruct (parseJSONArray (Args base')) as [arr|] eqn:Hp.
    + left. exists arr. reflexivity.
    + right. destruct (splitArgs (Args base') true) as [toks|err] eqn:Hs.
      * left. split; [reflexivity | exists toks; reflexivity].
      * right. split; [reflexivity | exists err; reflexivity].
  - intros [[arr Harr] Hnone]. congruence.
Qed.

End EntrypointForms.

Lemma newEntrypointDirective_exec_or_shell_form_witness :
  let parse := fun _ : string => @None (list string) in
  let vars := fun (b : string) (_ : unit) => Ok b in
  vars "echo hi"%string tt = Ok "echo hi"%string
  /\ parse "echo hi"%string = None
  /\ splitArgs "echo hi" true = Ok ["echo"; "hi"]%string
  /\ entrypoint.newEntrypointDirective string (fun b => b) unit vars parse
       (fun _ e => e) "echo hi"%string tt
     = Ok (entrypoint.mkEntrypointDirective _ "echo hi"%string
             ["/bin/sh"; "-c"; "echo hi"]%string).
Proof.
  split; [reflexivity | split; [reflexivity | split; [reflexivity |]]].
  destruct (newEntrypointDirective_exec_or_shell_form string (fun b => b) unit
              (fun (b : string) (_ : unit) => Ok b)
              (fun _ : string => @None (list string))
              (fun _ e => e) "echo hi"%string "echo hi"%string tt eq_refl)
    as (_ & Hshell & _).
  exact (proj1 (Hshell ["echo"; "hi"]%string eq_refl eq_refl)).
Defined.

(** ** Exit codes of executed commands *)

Lemma Sprintf_exit_line (code : Z) :
  Sprintf ("Command exited with %d" ++ LF) [VInt code]
  = ("Command exited with " ++ NilZero.string_of_int (Z.to_int code) ++ LF)%string.
Proof. reflexivity. Qed.

(** C7: when the prepared command starts and the process then ends with a
    non-zero exit code, [ExecCommand] calls the stderr sink once, with the
    format "Command exited with %d" and a newline and the observed code as
    operand, which renders as the line "Command exited with <code>"; it returns
    the exit error carrying the wait status with that code, which is not the
    error returned when the command fails to start. *)
Theorem ExecCommand_reports_nonzero_exit
    (os : OS) (workingDir user cmdName : string) (args : list string)
    (cmd : Cmd) (ws : WaitStatus) (code : Z)
    (Hprep : prepare os workingDir user cmdName args = inr cmd)
    (Hstart : Start os cmd = None)
    (Hwait : processWait os cmd = Ok ws)
    (Hcode : ExitStatus ws = code)
    (Hnonzero : code <> 0) :
  ExecCommand os workingDir user cmdName args
  = ([mkCall errStream ("Command exited with %d" ++ LF) [VInt code]],
     Some (ExitError ws))
  /\ Sprintf ("Command exited with %d" ++ LF) [VInt code]
     = ("Command exited with " ++ NilZero.string_of_int (Z.to_int code) ++ LF)%string
  /\ (forall (os2 : OS) (cmd2 : Cmd) (err : string),
        prepare os2 workingDir user cmdName args = inr cmd2 ->
        Start os2 cmd2 = Some err ->
        ExecCommand os2 workingDir user cmdName args
        = ([], Some (errorString ("cmd start: " ++ err)))
        /\ snd (ExecCommand os2 workingDir user cmdName args)
           <> snd (ExecCommand os workingDir user cmdName args)).
Proof.
  assert (Hexec : ExecCommand os workingDir user cmdName args
                  = ([mkCall errStream ("Command exited with %d" ++ LF) [VInt code]],
                     Some (ExitError ws))).
  { unfold ExecCommand. rewrite Hprep, Hstart.
    unfold Wait. rewrite Hwait.
    destruct (ExitStatus ws =? 0) eqn:Hz.
    - apply Z.eqb_eq in Hz. congruence.
    - rewrite Hcode. reflexivity. }
  split; [exact Hexec | split; [apply Sprintf_exit_line |]].
  intros os2 cmd2 err Hprep2 Hstart2.
  assert (Hexec2 : ExecCommand os2 workingDir user cmdName args
                   = ([], Some (errorString ("cmd start: " ++ err)))).
  { unfold ExecCommand. rewrite Hprep2, Hstart2. reflexivity. }
  split; [exact Hexec2 |].
  rewrite Hexec, Hexec2. simpl. discriminate.
Qed.

Lemma ExecCommand_reports_nonzero_exit_witness :
  let os := mkOS [] (fun _ => Err "no such user"%string) (fun _ => None)
              (fun _ => Ok 1792) (fun _ => None)
              (fun _ => ("/bin/false"%string, None)) in
  let cmd := mkCmd "/bin/false" ["false"%string] EmptyString []
               (Some (mkSysProcAttr true None)) None in
  prepare os EmptyString EmptyString "false" [] = inr cmd
  /\ Start os cmd = None
  /\ processWait os cmd = Ok 1792
  /\ ExitStatus 1792 = 7
  /\ 7 <> 0
  /\ ExecCommand os EmptyString EmptyString "false" []
     = ([mkCall errStream ("Command exited with %d" ++ LF) [VInt 7]],
        Some (ExitError 1792)).
Proof.
  repeat (split; [first [reflexivity | discriminate] |]).
  apply (ExecCommand_reports_nonzero_exit
           (mkOS [] (fun _ => Err "no such user"%string) (fun _ => None)
              (fun _ => Ok 1792) (fun _ => None)
              (fun _ => ("/bin/false"%string, None)))
           EmptyString EmptyString "false" []
           (mkCmd "/bin/false" ["false"%string] EmptyString []
              (Some (mkSysProcAttr true None)) None)
           1792 7);
    first [reflexivity | discriminate].
Defined.

(** ** Words, separators and bytes *)

Lemma append_nil_r (s : string) : (s ++ EmptyString)%string = s.
Proof.
  induction s as [|c s IH]; simpl; [reflexivity | now rewrite IH].
Qed.

Lemma append_assoc (s t u : string) :
  ((s ++ t) ++ u)%string = (s ++ (t ++ u))%string.
Proof.
  induction s as [|c s IH]; simpl; [reflexivity | now rewrite IH].
Qed.

Lemma runeToString_ascii (b : ascii) :
  asciiByte b = true -> runeToString (runeOfByte b) = String b EmptyString.
Proof.
  destruct b as [b0 b1 b2 b3 b4 b5 b6 b7].
  destruct b7.
  - intro H. exfalso.
    destruct b0, b1, b2, b3, b4, b5, b6; vm_compute in H; discriminate H.
  - intros _.
    destruct b0, b1, b2, b3, b4, b5, b6; vm_compute; reflexivity.
Qed.





Lemma plainRune_inv (r : rune) :
  plainRune r = true ->
  IsSpace r = false /\ (r =? rQuote) = false /\ (r =? rBackslash) = false.
Proof.
  unfold plainRune. intro H.
  apply andb_true_iff in H. destruct H as [H H3].
  apply andb_true_iff in H. destruct H as [H1 H2].
  repeat split; apply negb_true_iff; assumption.
Qed.








(** ** Joining and splitting again *)




(** ** Bytes, not characters *)




(** * Further properties of the splitter *)

Lemma feed_Space_spaces (ws tail : string) (s : splitArgsBase) :
  allBytes spaceByte ws = true ->
  feed (mkState splitArgsStateSpace s) (ws ++ tail)
  = feed (mkState splitArgsStateSpace s) tail.
Proof.
  induction ws as [|b ws IH]; intro H.
  - reflexivity.
  - cbn [allBytes] in H. apply andb_true_iff in H. destruct H as [Hb Hws].
    cbn [append feed]. unfold nextRune at 1. cbn [kind base].
    unfold splitArgsStateSpace_nextRune. unfold spaceByte in Hb. rewrite Hb.
    cbn [bind]. exact (IH Hws).
Qed.

(** ** Bytes *)

Lemma isShellChar_cases (r : rune) :
  isShellChar r = true -> r = rAmp \/ r = rPipe \/ r = rSemi.
Proof.
  unfold isShellChar. rewrite !orb_true_iff, !Z.eqb_eq. tauto.
Qed.

Lemma IsSpace_not_shellChar (r : rune) :
  IsSpace r = true -> isShellChar r = false.
Proof.
  intro Hs. destruct (isShellChar r) eqn:Hop; [|reflexivity].
  destruct (isShellChar_cases r Hop) as [H|[H|H]]; subst r;
    cbv in Hs; discriminate Hs.
Qed.

Lemma IsSpace_not_quote (r : rune) : IsSpace r = true -> (r =? rQuote) = false.
Proof.
  intro Hs. destruct (r =? rQuote) eqn:Hq; [|reflexivity].
  apply Z.eqb_eq in Hq. subst r. cbv in Hs. discriminate Hs.
Qed.

Lemma wordByte_inv (m : bool) (b : ascii) :
  wordByte m b = true ->
  runeToString (runeOfByte b) = String b EmptyString
  /\ IsSpace (runeOfByte b) = false
  /\ (runeOfByte b =? rQuote) = false
  /\ (runeOfByte b =? rBackslash) = false
  /\ m && isShellChar (runeOfByte b) = false.
Proof.
  unfold wordByte, plainByte, shellCharByte. intro H.
  apply andb_true_iff in H. destruct H as [H Hop].
  apply andb_true_iff in H. destruct H as [Ha Hp].
  destruct (plainRune_inv _ Hp) as (Hs & Hq & Hb).
  repeat split; try assumption.
  - now apply runeToString_ascii.
  - now apply negb_true_iff.
Qed.

Lemma shellCharByte_inv (b : ascii) :
  shellCharByte b = true ->
  runeToString (runeOfByte b) = String b EmptyString
  /\ IsSpace (runeOfByte b) = false
  /\ (runeOfByte b =? rQuote) = false
  /\ (runeOfByte b =? rBackslash) = false.
Proof.
  unfold shellCharByte. intro H.
  split.
  - apply runeToString_ascii. unfold asciiByte.
    destruct (isShellChar_cases _ H) as [E|[E|E]]; rewrite E; reflexivity.
  - destruct (isShellChar_cases _ H) as [E|[E|E]]; rewrite E;
      repeat split; reflexivity.
Qed.

(** ** Single transitions on the bytes of a piece *)

Lemma nextRune_Space_word (a : list string) (m : bool) (b : ascii) :
  wordByte m b = true ->
  nextRune (mkState splitArgsStateSpace (mkBase a EmptyString false m))
    (runeOfByte b)
  = Ok (mkState splitArgsStateArg (mkBase a (String b EmptyString) false m)).
Proof.
  intro H. destruct (wordByte_inv m b H) as (Hr & Hs & Hq & Hb & Hop).
  unfold nextRune. cbn [kind base]. unfold splitArgsStateSpace_nextRune.
  base_cbn. rewrite Hs, Hq, Hb, Hop, Hr. reflexivity.
Qed.

Lemma nextRune_Arg_word (a : list string) (c : string) (m : bool) (b : ascii) :
  wordByte m b = true ->
  nextRune (mkState splitArgsStateArg (mkBase a c false m)) (runeOfByte b)
  = Ok (mkState splitArgsStateArg (mkBase a (c ++ String b EmptyString) false m)).
Proof.
  intro H. destruct (wordByte_inv m b H) as (Hr & Hs & Hq & Hb & Hop).
  unfold nextRune. cbn [kind base]. unfold splitArgsStateArg_nextRune.
  base_cbn. rewrite Hs, Hop, Hr. reflexivity.
Qed.

Lemma nextRune_Arg_space (a : list string) (c : string) (m : bool) (r : rune) :
  IsSpace r = true ->
  nextRune (mkState splitArgsStateArg (mkBase a c false m)) r
  = Ok (mkState splitArgsStateSpace (mkBase (a ++ [c]) EmptyString false m)).
Proof.
  intro Hs. unfold nextRune. cbn [kind base].
  unfold splitArgsStateArg_nextRune. base_cbn. rewrite Hs. reflexivity.
Qed.

Lemma nextRune_Space_backslash (a : list string) (m : bool) :
  nextRune (mkState splitArgsStateSpace (mkBase a EmptyString false m)) rBackslash
  = Ok (mkState splitArgsStateArg (mkBase a EmptyString true m)).
Proof. reflexivity. Qed.

Lemma nextRune_Arg_escaped (a : list string) (m : bool) (c : ascii) :
  asciiByte c = true ->
  nextRune (mkState splitArgsStateArg (mkBase a EmptyString true m)) (runeOfByte c)
  = Ok (mkState splitArgsStateArg
          (mkBase a (escapedToken c EmptyString) false m)).
Proof.
  intro Ha. unfold nextRune. cbn [kind base].
  unfold splitArgsStateArg_nextRune, escapedToken. base_cbn.
  rewrite (runeToString_ascii c Ha).
  destruct (negb (IsSpace (runeOfByte c)) && negb (runeOfByte c =? rQuote));
    reflexivity.
Qed.

Lemma nextRune_Space_quote (a : list string) (m : bool) :
  nextRune (mkState splitArgsStateSpace (mkBase a EmptyString false m)) rQuote
  = Ok (mkState splitArgsStateQuote
          (mkBase a (if m then dq else EmptyString) false m)).
Proof. destruct m; reflexivity. Qed.

Lemma nextRune_Quote_byte (a : list string) (c : string) (m : bool) (b : ascii) :
  validQitem (QByte b) = true ->
  nextRune (mkState splitArgsStateQuote (mkBase a c false m)) (runeOfByte b)
  = Ok (mkState splitArgsStateQuote (mkBase a (c ++ String b EmptyString) false m)).
Proof.
  cbn [validQitem]. intro H.
  apply andb_true_iff in H. destruct H as [H Hb].
  apply andb_true_iff in H. destruct H as [Ha Hq].
  apply negb_true_iff in Hb, Hq.
  unfold nextRune. cbn [kind base]. unfold splitArgsStateQuote_nextRune.
  base_cbn. rewrite Hb, Hq, (runeToString_ascii b Ha). reflexivity.
Qed.

Lemma nextRune_Quote_backslash (a : list string) (c : string) (m : bool) :
  nextRune (mkState splitArgsStateQuote (mkBase a c false m)) rBackslash
  = Ok (mkState splitArgsStateQuote (mkBase a c true m)).
Proof. reflexivity. Qed.

Lemma nextRune_Quote_escaped (a : list string) (c : string) (m : bool) (b : ascii) :
  asciiByte b = true ->
  nextRune (mkState splitArgsStateQuote (mkBase a c true m)) (runeOfByte b)
  = Ok (mkState splitArgsStateQuote
          (mkBase a
             (c ++ if negb (runeOfByte b =? rQuote) || m
                   then String bBackslash (String b EmptyString)
                   else String b EmptyString)
             false m)).
Proof.
  intro Ha. unfold nextRune. cbn [kind base].
  unfold splitArgsStateQuote_nextRune. base_cbn.
  rewrite (runeToString_ascii b Ha).
  destruct (negb (runeOfByte b =? rQuote) || m); base_cbn.
  - now rewrite append_assoc.
  - reflexivity.
Qed.

Lemma nextRune_Quote_close (a : list string) (c : string) (m : bool) :
  nextRune (mkState splitArgsStateQuote (mkBase a c false m)) rQuote
  = Ok (mkState splitArgsStateEndQuote
          (mkBase (a ++ [if m then (c ++ dq)%string else c]) EmptyString false m)).
Proof. destruct m; reflexivity. Qed.

Lemma nextRune_EndQuote_space (s : splitArgsBase) (r : rune) :
  IsSpace r = true ->
  nextRune (mkState splitArgsStateEndQuote s) r
  = Ok (mkState splitArgsStateSpace s).
Proof.
  intro Hs. unfold nextRune. cbn [kind base].
  unfold splitArgsStateEndQuote_nextRune. rewrite Hs. reflexivity.
Qed.

Lemma nextRune_Space_operator (a : list string) (b : ascii) :
  shellCharByte b = true ->
  nextRune (mkState splitArgsStateSpace (mkBase a EmptyString false true))
    (runeOfByte b)
  = Ok (mkState splitArgsStateShellCharacters
          (mkBase a (String b EmptyString) false true)).
Proof.
  intro H. destruct (shellCharByte_inv b H) as (Hr & Hs & Hq & Hb).
  unfold shellCharByte in H.
  unfold nextRune. cbn [kind base]. unfold splitArgsStateSpace_nextRune.
  base_cbn. rewrite Hs, Hq, Hb, H, Hr. reflexivity.
Qed.

Lemma nextRune_Arg_operator (a : list string) (c : string) (b : ascii) :
  nonEmpty c = true -> shellCharByte b = true ->
  nextRune (mkState splitArgsStateArg (mkBase a c false true)) (runeOfByte b)
  = Ok (mkState splitArgsStateShellCharacters
          (mkBase (a ++ [c]) (String b EmptyString) false true)).
Proof.
  intros Hc H. destruct (shellCharByte_inv b H) as (Hr & Hs & Hq & Hb).
  unfold shellCharByte in H.
  unfold nextRune. cbn [kind base]. unfold splitArgsStateArg_nextRune.
  cbn [escaped forShell]. rewrite Hs, H. cbn [andb].
  unfold flushNonEmpty. cbn [currArg]. rewrite Hc, Hr. reflexivity.
Qed.

Lemma nextRune_EndQuote_operator (a : list string) (b : ascii) :
  shellCharByte b = true ->
  nextRune (mkState splitArgsStateEndQuote (mkBase a EmptyString false true))
    (runeOfByte b)
  = Ok (mkState splitArgsStateShellCharacters
          (mkBase a (String b EmptyString) false true)).
Proof.
  intro H. destruct (shellCharByte_inv b H) as (Hr & Hs & Hq & Hb).
  unfold shellCharByte, isShellChar in H.
  unfold nextRune. cbn [kind base]. unfold splitArgsStateEndQuote_nextRune.
  cbn [forShell]. rewrite Hs. cbn [negb andb]. rewrite H, Hr. reflexivity.
Qed.

Lemma nextRune_Shell_operator (a : list string) (c : string) (b : ascii) :
  shellCharByte b = true ->
  nextRune (mkState splitArgsStateShellCharacters (mkBase a c false true))
    (runeOfByte b)
  = Ok (mkState splitArgsStateShellCharacters
          (mkBase a (c ++ String b EmptyString) false true)).
Proof.
  intro H. destruct (shellCharByte_inv b H) as (Hr & Hs & Hq & Hb).
  unfold shellCharByte, isShellChar in H.
  unfold nextRune. cbn [kind base]. unfold splitArgsStateShellCharacters_nextRune.
  cbn [forShell negb].
  replace (negb (runeOfByte b =? rAmp) && negb (runeOfByte b =? rPipe)
           && negb (runeOfByte b =? rSemi)) with false.
  - rewrite Hr. reflexivity.
  - rewrite <- !negb_orb. now rewrite H.
Qed.

Lemma nextRune_Shell_space (a : list string) (c : string) (r : rune) :
  nonEmpty c = true -> IsSpace r = true ->
  nextRune (mkState splitArgsStateShellCharacters (mkBase a c false true)) r
  = Ok (mkState splitArgsStateSpace (mkBase (a ++ [c]) EmptyString false true)).
Proof.
  intros Hc Hs. pose proof (IsSpace_not_shellChar r Hs) as Hop.
  unfold isShellChar in Hop.
  unfold nextRune. cbn [kind base]. unfold splitArgsStateShellCharacters_nextRune.
  cbn [forShell negb].
  replace (negb (r =? rAmp) && negb (r =? rPipe) && negb (r =? rSemi)) with true
    by (rewrite <- !negb_orb; now rewrite Hop).
  unfold flushNonEmpty. cbn [currArg]. rewrite Hc, Hs. reflexivity.
Qed.

(** ** Runs over the parts of a piece *)

Lemma feed_Arg_wordBytes (w tail : string) (m : bool) :
  forall (a : list string) (c : string),
  allBytes (wordByte m) w = true ->
  feed (mkState splitArgsStateArg (mkBase a c false m)) (w ++ tail)
  = feed (mkState splitArgsStateArg (mkBase a (c ++ w) false m)) tail.
Proof.
  induction w as [|b w IH]; intros a c H.
  - cbn [append]. now rewrite append_nil_r.
  - cbn [allBytes] in H. apply andb_true_iff in H. destruct H as [Hb Hw].
    cbn [append feed]. rewrite (nextRune_Arg_word a c m b Hb). cbn [bind].
    rewrite (IH a _ Hw). rewrite append_assoc. reflexivity.
Qed.

Lemma feed_Quote_items (q : list qitem) (tail : string) (m : bool) :
  forall (a : list string) (c : string),
  forallb validQitem q = true ->
  feed (mkState splitArgsStateQuote (mkBase a c false m)) (renderQuoted q ++ tail)
  = feed (mkState splitArgsStateQuote (mkBase a (c ++ decodeQuoted m q) false m))
      tail.
Proof.
  induction q as [|i q IH]; intros a c H.
  - cbn [renderQuoted decodeQuoted append]. now rewrite append_nil_r.
  - cbn [forallb] in H. apply andb_true_iff in H. destruct H as [Hi Hq].
    destruct i as [b|b]; cbn [renderQuoted decodeQuoted append feed].
    + rewrite (nextRune_Quote_byte a c m b Hi). cbn [bind].
      rewrite (IH a _ Hq). rewrite append_assoc. reflexivity.
    + change (runeOfByte bBackslash) with rBackslash.
      rewrite nextRune_Quote_backslash. cbn [bind].
      cbn [validQitem] in Hi.
      rewrite (nextRune_Quote_escaped a c m b Hi). cbn [bind].
      rewrite (IH a _ Hq). rewrite append_assoc.
      destruct (negb (runeOfByte b =? rQuote) || m); reflexivity.
Qed.

Lemma feed_Shell_operators (o tail : string) :
  forall (a : list string) (c : string),
  allBytes shellCharByte o = true ->
  feed (mkState splitArgsStateShellCharacters (mkBase a c false true)) (o ++ tail)
  = feed (mkState splitArgsStateShellCharacters (mkBase a (c ++ o) false true))
      tail.
Proof.
  induction o as [|b o IH]; intros a c H.
  - cbn [append]. now rewrite append_nil_r.
  - cbn [allBytes] in H. apply andb_true_iff in H. destruct H as [Hb Ho].
    cbn [append feed]. rewrite (nextRune_Shell_operator a c b Hb). cbn [bind].
    rewrite (IH a _ Ho). rewrite append_assoc. reflexivity.
Qed.

Lemma feed_word (w tail : string) (m : bool) (a : list string) :
  isWord m w = true ->
  feed (mkState splitArgsStateSpace (mkBase a EmptyString false m)) (w ++ tail)
  = feed (mkState splitArgsStateArg (mkBase a w false m)) tail.
Proof.
  unfold isWord. intro H. destruct w as [|b w]; [discriminate H|].
  cbn [nonEmpty allBytes andb] in H.
  apply andb_true_iff in H. destruct H as [Hb Hw].
  cbn [append feed]. rewrite (nextRune_Space_word a m b Hb). cbn [bind].
  now rewrite (feed_Arg_wordBytes w tail m a _ Hw).
Qed.

Lemma feed_quoted (q : list qitem) (tail : string) (m : bool) (a : list string) :
  forallb validQitem q = true ->
  feed (mkState splitArgsStateSpace (mkBase a EmptyString false m))
    (dq ++ renderQuoted q ++ dq ++ tail)
  = feed (mkState splitArgsStateEndQuote
            (mkBase (a ++ [quotedToken m q]) EmptyString false m))
      tail.
Proof.
  intro Hq. unfold dq at 1. cbn [append feed].
  change (runeOfByte bQuote) with rQuote.
  rewrite nextRune_Space_quote. cbn [bind].
  rewrite (feed_Quote_items q _ m a _ Hq).
  unfold dq at 2. cbn [append feed].
  change (runeOfByte bQuote) with rQuote.
  rewrite nextRune_Quote_close. cbn [bind].
  unfold quotedToken. destruct m; reflexivity.
Qed.

Lemma nonEmpty_operators (o : string) :
  isOperatorRun o = true -> nonEmpty o = true /\ allBytes shellCharByte o = true.
Proof.
  unfold isOperatorRun. intro H. now apply andb_true_iff in H.
Qed.

Lemma isWord_nonEmpty (m : bool) (w : string) :
  isWord m w = true -> nonEmpty w = true.
Proof.
  unfold isWord. intro H. apply andb_true_iff in H. apply H.
Qed.

(** Reading a valid piece from the space state leads to [afterPiece]. *)
Lemma feed_piece (m : bool) (a : list string) (p : piece) (tail : string) :
  validPiece m p = true ->
  feed (mkState splitArgsStateSpace (mkBase a EmptyString false m))
    (renderPiece p ++ tail)
  = feed (afterPiece m a p) tail.
Proof.
  destruct p as [w|c w|q|o|w o|q o];
    cbn [validPiece renderPiece afterPiece]; intro H.
  - now apply feed_word.
  - apply andb_true_iff in H. destruct H as [Hc Hw].
    cbn [append feed]. change (runeOfByte bBackslash) with rBackslash.
    rewrite nextRune_Space_backslash. cbn [bind].
    rewrite (nextRune_Arg_escaped a m c Hc). cbn [bind].
    rewrite (feed_Arg_wordBytes w tail m a _ Hw).
    unfold escapedToken.
    destruct (negb (IsSpace (runeOfByte c)) && negb (runeOfByte c =? rQuote));
      reflexivity.
  - rewrite !append_assoc. now apply feed_quoted.
  - apply andb_true_iff in H. destruct H as [Hm Ho]. subst m.
    destruct (nonEmpty_operators o Ho) as [Hne Hall].
    destruct o as [|b o]; [discriminate Hne|].
    cbn [allBytes] in Hall. apply andb_true_iff in Hall. destruct Hall as [Hb Hall].
    cbn [append feed]. rewrite (nextRune_Space_operator a b Hb). cbn [bind].
    now rewrite (feed_Shell_operators o tail a _ Hall).
  - apply andb_true_iff in H. destruct H as [H Ho].
    apply andb_true_iff in H. destruct H as [Hm Hw]. subst m.
    rewrite append_assoc. rewrite (feed_word w _ true a Hw).
    destruct (nonEmpty_operators o Ho) as [Hne Hall].
    destruct o as [|b o]; [discriminate Hne|].
    cbn [allBytes] in Hall. apply andb_true_iff in Hall. destruct Hall as [Hb Hall].
    cbn [append feed].
    rewrite (nextRune_Arg_operator a w b (isWord_nonEmpty _ _ Hw) Hb). cbn [bind].
    now rewrite (feed_Shell_operators o tail _ _ Hall).
  - apply andb_true_iff in H. destruct H as [H Ho].
    apply andb_true_iff in H. destruct H as [Hm Hq]. subst m.
    rewrite !append_assoc. rewrite (feed_quoted q _ true a Hq).
    destruct (nonEmpty_operators o Ho) as [Hne Hall].
    destruct o as [|b o]; [discriminate Hne|].
    cbn [allBytes] in Hall. apply andb_true_iff in Hall. destruct Hall as [Hb Hall].
    cbn [append feed].
    rewrite (nextRune_EndQuote_operator _ b Hb). cbn [bind].
    now rewrite (feed_Shell_operators o tail _ _ Hall).
Qed.

(** Whitespace after a valid piece finishes its tokens. *)
Lemma nextRune_afterPiece_space (m : bool) (a : list string) (p : piece) (r : rune) :
  validPiece m p = true -> IsSpace r = true ->
  nextRune (afterPiece m a p) r
  = Ok (mkState splitArgsStateSpace
          (mkBase (a ++ tokensOf m p) EmptyString false m)).
Proof.
  destruct p as [w|c w|q|o|w o|q o]; cbn [validPiece afterPiece tokensOf];
    intros H Hs.
  - now apply nextRune_Arg_space.
  - now apply nextRune_Arg_space.
  - now apply nextRune_EndQuote_space.
  - apply andb_true_iff in H. destruct H as [Hm Ho]. subst m.
    apply nextRune_Shell_space; [apply (nonEmpty_operators o Ho) | exact Hs].
  - apply andb_true_iff in H. destruct H as [H Ho].
    apply andb_true_iff in H. destruct H as [Hm Hw]. subst m.
    rewrite (nextRune_Shell_space _ o r (proj1 (nonEmpty_operators o Ho)) Hs).
    now rewrite <- app_assoc.
  - apply andb_true_iff in H. destruct H as [H Ho].
    apply andb_true_iff in H. destruct H as [Hm Hq]. subst m.
    rewrite (nextRune_Shell_space _ o r (proj1 (nonEmpty_operators o Ho)) Hs).
    now rewrite <- app_assoc.
Qed.

Lemma feed_items (m : bool) (items : list (piece * string)) (tail : string) :
  forall a : list string,
  validItems m items = true ->
  feed (mkState splitArgsStateSpace (mkBase a EmptyString false m))
    (renderItems items ++ tail)
  = feed (mkState splitArgsStateSpace
            (mkBase (a ++ tokensOfItems m items) EmptyString false m))
      tail.
Proof.
  induction items as [|[p sep] items IH]; intros a H.
  - cbn [renderItems tokensOfItems flat_map append]. now rewrite app_nil_r.
  - cbn [validItems forallb fst snd] in H.
    apply andb_true_iff in H. destruct H as [H Hitems].
    apply andb_true_iff in H. destruct H as [Hp Hsep].
    unfold isSpaceRun in Hsep. destruct sep as [|s sep]; [discriminate Hsep|].
    cbn [nonEmpty allBytes andb] in Hsep.
    apply andb_true_iff in Hsep. destruct Hsep as [Hs Hsep].
    cbn [renderItems]. rewrite !append_assoc.
    rewrite (feed_piece m a p _ Hp).
    cbn [append feed].
    rewrite (nextRune_afterPiece_space m a p _ Hp Hs). cbn [bind].
    rewrite (feed_Space_spaces sep _ _ Hsep).
    rewrite (IH _ Hitems).
    cbn [tokensOfItems flat_map fst]. now rewrite <- app_assoc.
Qed.

Lemma endOfInput_afterPiece (m : bool) (a : list string) (p : piece) :
  closedPiece p = true ->
  endOfInput (afterPiece m a p) = Ok (a ++ tokensOf m p).
Proof.
  destruct p; cbn [closedPiece]; intro H; try discriminate H; reflexivity.
Qed.

Lemma feed_lead_items (m : bool) (lead : string) (items : list (piece * string))
    (tail : string) :
  allBytes spaceByte lead = true -> validItems m items = true ->
  feed (initialState m) (lead ++ renderItems items ++ tail)
  = feed (mkState splitArgsStateSpace
            (mkBase (tokensOfItems m items) EmptyString false m))
      tail.
Proof.
  intros Hlead Hitems. unfold initialState.
  rewrite (feed_Space_spaces lead _ _ Hlead).
  now rewrite (feed_items m items tail [] Hitems).
Qed.

(** ** What the splitter returns on well-formed inputs *)

Lemma splitArgs_pieces_tokens
    (m : bool) (lead : string) (items : list (piece * string))
    (last : option piece) :
  allBytes spaceByte lead = true ->
  validItems m items = true ->
  validLast m last = true ->
  splitArgs (lead ++ renderItems items ++ renderLast last) m
  = Ok (tokensOfItems m items ++ tokensOfLast m last).
Proof.
  intros Hlead Hitems Hlast.
  unfold splitArgs. rewrite (feed_lead_items m lead items _ Hlead Hitems).
  destruct last as [p|]; cbn [renderLast tokensOfLast validLast] in *.
  - apply andb_true_iff in Hlast. destruct Hlast as [Hp Hclosed].
    rewrite <- (append_nil_r (renderPiece p)).
    rewrite (feed_piece m _ p EmptyString Hp). cbn [feed bind].
    now apply endOfInput_afterPiece.
  - cbn [feed bind]. unfold endOfInput. cbn [kind base].
    unfold splitArgsStateSpace_endOfInput. cbn [args]. now rewrite app_nil_r.
Qed.

(** X1: an input made of optional leading whitespace and of pieces, each
    followed by at least one whitespace byte except, optionally, a last word
    or quoted string, splits into the tokens of its pieces, in order.  A word
    is its own token; a word opening with a backslash keeps the backslash
    unless the next byte is whitespace or a double quote; a quoted string
    gives its content in plain mode, where backslash-quote becomes a quote, and
    its text with the quotes in shell mode; in shell mode a run of operators,
    alone or right behind a word or a quoted string, is a token of its own. *)
Theorem splitArgs_pieces
    (m : bool) (lead : string) (items : list (piece * string))
    (last : option piece)
    (Hlead : allBytes spaceByte lead = true)
    (Hitems : validItems m items = true)
    (Hlast : validLast m last = true) :
  splitArgs (lead ++ renderItems items ++ renderLast last) m
  = Ok (tokensOfItems m items ++ tokensOfLast m last).
Proof.
  now apply splitArgs_pieces_tokens.
Qed.

Lemma splitArgs_pieces_witness :
  let items :=
    [(Word "echo", " "%string);
     (Quoted [QByte "a"; QByte " "; QEscape bQuote; QByte "b"], "  "%string);
     (WordOperator "x" "&&", " "%string)] in
  let last := Some (EscapedWord " " "ls") in
  allBytes spaceByte " " = true
  /\ validItems true items = true
  /\ validLast true last = true
  /\ splitArgs (" " ++ renderItems items ++ renderLast last) true
     = Ok ["echo"%string;
           (dq ++ "a \" ++ dq ++ "b" ++ dq)%string;
           "x"%string; "&&"%string; " ls"%string].
Proof.
  split; [reflexivity | split; [reflexivity | split; [reflexivity |]]].
  apply (splitArgs_pieces true " "
           [(Word "echo", " "%string);
            (Quoted [QByte "a"; QByte " "; QEscape bQuote; QByte "b"], "  "%string);
            (WordOperator "x" "&&", " "%string)]
           (Some (EscapedWord " " "ls")));
    reflexivity.
Defined.

(** X2: whitespace in front of an input changes nothing, in either mode, and
    an input of whitespace only gives no token. *)
Theorem splitArgs_leading_whitespace
    (ws input : string) (m : bool)
    (Hws : allBytes spaceByte ws = true) :
  splitArgs (ws ++ input) m = splitArgs input m
  /\ splitArgs ws m = Ok [].
Proof.
  unfold splitArgs, initialState. split.
  - now rewrite (feed_Space_spaces ws input _ Hws).
  - rewrite <- (append_nil_r ws).
    now rewrite (feed_Space_spaces ws EmptyString _ Hws).
Qed.

Lemma splitArgs_leading_whitespace_witness :
  allBytes spaceByte "  " = true
  /\ splitArgs ("  " ++ "a b") false = splitArgs "a b" false
  /\ splitArgs "  " false = Ok [].
Proof.
  split; [reflexivity |].
  apply (splitArgs_leading_whitespace "  " "a b" false). reflexivity.
Defined.

(** ** Errors on malformed inputs *)

(** X3: let the input be optional leading whitespace, then pieces as in X1,
    every one of them followed by at least one whitespace byte, then a double
    quote and ASCII bytes without a closing quote (bytes other than the double
    quote and the backslash, and backslash-byte pairs).  The splitter fails
    with the unexpected-termination error, whose message ends with what the
    quoted region had collected (preceded by the quote itself in shell mode).
    Nothing is said of an opening quote that directly follows a word or an
    operator. *)
Theorem splitArgs_unterminated_quote
    (m : bool) (lead : string) (items : list (piece * string)) (q : list qitem)
    (Hlead : allBytes spaceByte lead = true)
    (Hitems : validItems m items = true)
    (Hq : forallb validQitem q = true) :
  splitArgs (lead ++ renderItems items ++ dq ++ renderQuoted q) m
  = Err (errUnterminated
           (if m then (dq ++ decodeQuoted m q)%string else decodeQuoted m q)).
Proof.
  unfold splitArgs. rewrite (feed_lead_items m lead items _ Hlead Hitems).
  unfold dq at 1. cbn [append feed]. change (runeOfByte bQuote) with rQuote.
  rewrite nextRune_Space_quote. cbn [bind].
  rewrite <- (append_nil_r (renderQuoted q)).
  rewrite (feed_Quote_items q EmptyString m _ _ Hq). cbn [feed bind].
  destruct m; reflexivity.
Qed.

Lemma splitArgs_unterminated_quote_witness :
  allBytes spaceByte EmptyString = true
  /\ validItems false [(Word "a", " "%string)] = true
  /\ forallb validQitem [QByte "b"; QByte " "; QByte "c"] = true
  /\ splitArgs ("a " ++ dq ++ "b c") false = Err (errUnterminated "b c").
Proof.
  split; [reflexivity | split; [reflexivity | split; [reflexivity |]]].
  apply (splitArgs_unterminated_quote false EmptyString [(Word "a", " "%string)]
           [QByte "b"; QByte " "; QByte "c"]);
    reflexivity.
Defined.

(** X4: let the input be optional leading whitespace, then pieces as in X1,
    every one of them followed by at least one whitespace byte, then a quoted
    string of ASCII bytes directly followed by a byte that is neither
    whitespace, nor a pipe, nor a semicolon, nor (in shell mode) an ampersand,
    then anything.  The splitter fails with "missing whitespace after
    argument".  Nothing is said of a quoted string whose opening quote
    directly follows a word or an operator. *)
Theorem splitArgs_missing_whitespace_after_quote
    (m : bool) (lead : string) (items : list (piece * string)) (q : list qitem)
    (b : ascii) (rest : string)
    (Hlead : allBytes spaceByte lead = true)
    (Hitems : validItems m items = true)
    (Hq : forallb validQitem q = true)
    (Hspace : IsSpace (runeOfByte b) = false)
    (Hpipe : runeOfByte b <> rPipe)
    (Hsemi : runeOfByte b <> rSemi)
    (Hamp : m = true -> runeOfByte b <> rAmp) :
  splitArgs (lead ++ renderItems items ++ dq ++ renderQuoted q ++ dq
             ++ String b rest) m
  = Err errMissingWhitespace.
Proof.
  unfold splitArgs. rewrite (feed_lead_items m lead items _ Hlead Hitems).
  rewrite (feed_quoted q _ m _ Hq).
  cbn [feed]. unfold nextRune. cbn [kind base].
  unfold splitArgsStateEndQuote_nextRune. cbn [forShell]. rewrite Hspace.
  cbn [negb].
  apply Z.eqb_neq in Hpipe, Hsemi. rewrite Hpipe, Hsemi.
  destruct m; cbn [andb orb].
  - specialize (Hamp eq_refl). apply Z.eqb_neq in Hamp. rewrite Hamp. reflexivity.
  - reflexivity.
Qed.

Lemma splitArgs_missing_whitespace_after_quote_witness :
  allBytes spaceByte EmptyString = true
  /\ validItems false [] = true
  /\ forallb validQitem [QByte "a"] = true
  /\ IsSpace (runeOfByte "x") = false
  /\ splitArgs (dq ++ "a" ++ dq ++ "x y") false = Err errMissingWhitespace.
Proof.
  split; [reflexivity | split; [reflexivity | split; [reflexivity |]]].
  split; [reflexivity |].
  apply (splitArgs_missing_whitespace_after_quote false EmptyString []
           [QByte "a"] "x" " y");
    first [reflexivity | discriminate].
Defined.

(** X5: let the input be optional leading whitespace, then pieces as in X1,
    every one of them followed by at least one whitespace byte, then one
    backslash and nothing more.  The backslash is dropped and the splitter
    returns the tokens of the pieces followed by one empty token.  Nothing is
    said of a backslash after whitespace that follows anything else, such as a
    word that directly follows an operator run. *)
Theorem splitArgs_trailing_backslash
    (m : bool) (lead : string) (items : list (piece * string))
    (Hlead : allBytes spaceByte lead = true)
    (Hitems : validItems m items = true) :
  splitArgs (lead ++ renderItems items ++ String bBackslash EmptyString) m
  = Ok (tokensOfItems m items ++ [EmptyString]).
Proof.
  unfold splitArgs. rewrite (feed_lead_items m lead items _ Hlead Hitems).
  cbn [feed]. change (runeOfByte bBackslash) with rBackslash.
  rewrite nextRune_Space_backslash. reflexivity.
Qed.

Lemma splitArgs_trailing_backslash_witness :
  allBytes spaceByte EmptyString = true
  /\ validItems false [(Word "a", " "%string)] = true
  /\ splitArgs "a \" false = Ok ["a"%string; EmptyString].
Proof.
  split; [reflexivity | split; [reflexivity |]].
  apply (splitArgs_trailing_backslash false EmptyString [(Word "a", " "%string)]);
    reflexivity.
Defined.

(** ** Invariants of the transitions *)

Lemma nextRune_quoteless (st : splitArgsState) (r : rune) :
  quoteless st = true -> (r =? rQuote) = false ->
  exists st', nextRune st r = Ok st' /\ quoteless st' = true.
Proof.
  destruct st as [k [a c e m]]. unfold quoteless. cbn [kind base forShell].
  intros Hk Hq.
  destruct k; try discriminate Hk; try subst m; destruct e; try destruct m;
    unfold_nextRune; rewrite ?Hq; cbn [negb andb orb];
    step_cases; eexists; (split; [reflexivity | reflexivity]).
Qed.

Lemma feed_quoteless (input : string) : forall st : splitArgsState,
  quoteless st = true -> quoteFree input = true ->
  exists st', feed st input = Ok st' /\ quoteless st' = true.
Proof.
  induction input as [|b input IH]; intros st Hst Hfree.
  - exists st. split; [reflexivity | exact Hst].
  - unfold quoteFree in Hfree. cbn [allBytes] in Hfree.
    apply andb_true_iff in Hfree. destruct Hfree as [Hb Hfree].
    apply negb_true_iff in Hb.
    destruct (nextRune_quoteless st _ Hst Hb) as (st1 & Hstep & Hst1).
    cbn [feed]. rewrite Hstep. cbn [bind]. now apply IH.
Qed.

(** X6: an input without a double quote is never rejected, in either mode. *)
Theorem splitArgs_without_quote_succeeds
    (input : string) (m : bool)
    (Hfree : quoteFree input = true) :
  exists toks, splitArgs input m = Ok toks.
Proof.
  destruct (feed_quoteless input (initialState m) eq_refl Hfree)
    as (st & Hfeed & Hst).
  unfold splitArgs. rewrite Hfeed. cbn [bind].
  destruct st as [k s]. unfold quoteless in Hst. cbn [kind] in Hst.
  destruct k; try discriminate Hst; eexists; reflexivity.
Qed.

Lemma splitArgs_without_quote_succeeds_witness :
  quoteFree "a\ && b;" = true
  /\ exists toks, splitArgs "a\ && b;" true = Ok toks.
Proof.
  split; [reflexivity |].
  apply (splitArgs_without_quote_succeeds "a\ && b;" true). reflexivity.
Defined.

Lemma nextRune_forShell (st st' : splitArgsState) (r : rune) :
  nextRune st r = Ok st' -> forShell (base st') = forShell (base st).
Proof.
  destruct st as [k [a c e m]]. intro H.
  destruct k; unfold_nextRune; step_cases;
    inversion H; subst st'; reflexivity.
Qed.

Lemma nextRune_Err (st : splitArgsState) (r : rune) (e : string) :
  nextRune st r = Err e ->
  e = errMissingWhitespace
  \/ (e = errNotInShell /\ forShell (base st) = false).
Proof.
  destruct st as [k [a c esc m]]. intro H.
  destruct k; unfold_nextRune; step_cases; inversion H; subst e.
  - left. reflexivity.
  - right. split; [reflexivity |]. now apply negb_true_iff.
Qed.

Lemma feed_Err (input : string) : forall (st : splitArgsState) (e : string),
  feed st input = Err e ->
  e = errMissingWhitespace
  \/ (e = errNotInShell /\ forShell (base st) = false).
Proof.
  induction input as [|b input IH]; intros st e H.
  - discriminate H.
  - cbn [feed] in H.
    destruct (nextRune st (runeOfByte b)) as [st1|e1] eqn:Hstep; cbn [bind] in H.
    + destruct (IH st1 e H) as [E|[E Hm]]; [left; exact E | right].
      split; [exact E |]. now rewrite <- (nextRune_forShell _ _ _ Hstep).
    + inversion H. subst e1. now apply (nextRune_Err st (runeOfByte b)).
Qed.

(** X7: the splitter fails in three ways only: "missing whitespace after
    argument", "not in a shell", which never happens in shell mode, and the
    unexpected-termination error of an open quoted region. *)
Theorem splitArgs_error_messages
    (input : string) (m : bool) (e : string)
    (Herr : splitArgs input m = Err e) :
  e = errMissingWhitespace
  \/ (e = errNotInShell /\ m = false)
  \/ exists partial, e = errUnterminated partial.
Proof.
  unfold splitArgs in Herr.
  destruct (feed (initialState m) input) as [st|e1] eqn:Hfeed; cbn [bind] in Herr.
  - right. right. destruct st as [k s]. unfold endOfInput in Herr.
    cbn [kind base] in Herr.
    destruct k; try discriminate Herr.
    exists (currArg s). inversion Herr. reflexivity.
  - inversion Herr. subst e1.
    destruct (feed_Err input _ e Hfeed) as [E|[E Hm]].
    + left. exact E.
    + right. left. split; [exact E | exact Hm].
Qed.

Lemma splitArgs_error_messages_witness :
  splitArgs (dq ++ "a" ++ dq ++ ";b") false = Err errNotInShell
  /\ (errNotInShell = errMissingWhitespace
      \/ (errNotInShell = errNotInShell /\ false = false)
      \/ exists partial, errNotInShell = errUnterminated partial).
Proof.
  split; [reflexivity |].
  apply (splitArgs_error_messages (dq ++ "a" ++ dq ++ ";b") false errNotInShell).
  reflexivity.
Defined.

Lemma nextRune_count (st st' : splitArgsState) (r : rune) :
  nextRune st r = Ok st' ->
  (List.length (args (base st')) + pending st'
   <= List.length (args (base st)) + pending st + 1)%nat.
Proof.
  destruct st as [k [a c e m]]. intro H. unfold pending.
  destruct k; unfold_nextRune; step_cases;
    inversion H; subst st'; clear H;
    cbn [kind base args currArg nonEmpty]; rewrite ?length_app;
    cbn [List.length]; step_cases; lia.
Qed.

Lemma feed_count (input : string) : forall st st' : splitArgsState,
  feed st input = Ok st' ->
  (List.length (args (base st')) + pending st'
   <= List.length (args (base st)) + pending st + String.length input)%nat.
Proof.
  induction input as [|b input IH]; intros st st' H.
  - inversion H. subst st'. cbn [String.length]. lia.
  - cbn [feed] in H.
    destruct (nextRune st (runeOfByte b)) as [st1|e1] eqn:Hstep;
      cbn [bind] in H; [|discriminate H].
    pose proof (nextRune_count _ _ _ Hstep) as H1.
    pose proof (IH _ _ H) as H2.
    cbn [String.length]. lia.
Qed.

(** X8: the splitter never returns more tokens than the input has bytes. *)
Theorem splitArgs_token_count
    (input : string) (m : bool) (toks : list string)
    (Hok : splitArgs input m = Ok toks) :
  (List.length toks <= String.length input)%nat.
Proof.
  unfold splitArgs in Hok.
  destruct (feed (initialState m) input) as [st|e] eqn:Hfeed;
    cbn [bind] in Hok; [|discriminate Hok].
  pose proof (feed_count input _ _ Hfeed) as Hc.
  destruct st as [k s]. unfold endOfInput in Hok. cbn [kind base] in Hok.
  unfold initialState, pending in Hc.
  cbn [kind base args currArg nonEmpty List.length] in Hc.
  destruct k; inversion Hok; subst toks;
    rewrite ?length_app; cbn [List.length]; step_cases; lia.
Qed.

Lemma splitArgs_token_count_witness :
  splitArgs "a b" false = Ok ["a"; "b"]%string
  /\ (List.length ["a"; "b"]%string <= String.length "a b")%nat.
Proof.
  split; [reflexivity |].
  apply (splitArgs_token_count "a b" false ["a"; "b"]%string). reflexivity.
Defined.

(** X9: an input rejected for a reason other than an open quoted region
    stays rejected, with the same error, however it is continued. *)
Theorem splitArgs_rejection_is_final
    (input more : string) (m : bool) (e : string)
    (Herr : splitArgs input m = Err e)
    (Hclosed : forall partial, e <> errUnterminated partial) :
  splitArgs (input ++ more) m = Err e.
Proof.
  unfold splitArgs in *. rewrite feed_app.
  destruct (feed (initialState m) input) as [st|e1]; cbn [bind] in *.
  - exfalso. destruct st as [k s]. unfold endOfInput in Herr.
    cbn [kind base] in Herr. destruct k; try discriminate Herr.
    inversion Herr. now apply (Hclosed (currArg s)).
  - exact Herr.
Qed.

Lemma splitArgs_rejection_is_final_witness :
  splitArgs (dq ++ "a" ++ dq ++ "x") false = Err errMissingWhitespace
  /\ (forall partial, errMissingWhitespace <> errUnterminated partial)
  /\ splitArgs ((dq ++ "a" ++ dq ++ "x") ++ " y") false = Err errMissingWhitespace.
Proof.
  assert (H : forall partial, errMissingWhitespace <> errUnterminated partial)
    by (intros partial; discriminate).
  split; [reflexivity | split; [exact H |]].
  apply (splitArgs_rejection_is_final (dq ++ "a" ++ dq ++ "x") " y" false
           errMissingWhitespace eq_refl H).
Defined.

(** * The shell form of ENTRYPOINT *)





Section EntrypointShellForm.

Import entrypoint.

Variable baseDirective : Type.
Variable Args : baseDirective -> string.
Variable parsingState : Type.
Variable replaceVarsCurrStage : baseDirective -> parsingState -> result baseDirective.
Variable parseJSONArray : string -> option (list string).
Variable baseErr : baseDirective -> string -> string.


End EntrypointShellForm.


(** * Draining a pipe into a sink *)

Lemma printed_app (c1 c2 : list call) :
  printed (c1 ++ c2) = (printed c1 ++ printed c2)%string.
Proof.
  induction c1 as [|c c1 IH]; cbn [app printed].
  - reflexivity.
  - now rewrite IH, append_assoc.
Qed.

(** The calls made for one read print exactly its chunk. *)
Lemma printed_chunk (sink : stream) (s : string) :
  printed (if nonEmpty s then [mkCall sink "%s" [VString s]] else []) = s.
Proof.
  destruct s as [|b s]; [reflexivity|].
  cbn [nonEmpty printed format operands].
  change (Sprintf "%s" [VString (String b s)])
    with (String b s ++ EmptyString)%string.
  now rewrite !append_nil_r.
Qed.

Lemma chunk_calls (sink : stream) (s : string) :
  Forall (isChunkCall sink)
    (if nonEmpty s then [mkCall sink "%s" [VString s]] else []).
Proof.
  destruct (nonEmpty s) eqn:Hs; constructor; [|constructor].
  unfold isChunkCall. cbn [callee format operands].
  repeat split. exists s. split; [reflexivity | exact Hs].
Qed.

Lemma readerToStream_reads (reader : Reader) (sink : stream) (n : nat) :
  forall (i fuel : nat),
  (forall j, (i <= j < i + n)%nat -> readErr (reader j) = readNil) ->
  readErr (reader (i + n)%nat) <> readNil ->
  (n < fuel)%nat ->
  exists calls,
    readerToStream fuel reader i sink
    = Some (calls,
            match readErr (reader (i + n)%nat) with
            | readFailed err => Some err
            | _ => None
            end)
    /\ printed calls = chunksFrom reader i n
    /\ Forall (isChunkCall sink) calls
    /\ calls = callsFrom reader sink i n.
Proof.
  induction n as [|n IH]; intros i fuel Hnil Hend Hfuel.
  - destruct fuel as [|fuel]; [lia|].
    rewrite Nat.add_0_r in *.
    eexists. split; [|split; [|split]].
    + cbn [readerToStream].
      destruct (readErr (reader i)) as [| |err]; [congruence | reflexivity..].
    + cbn [chunksFrom]. apply printed_chunk.
    + apply chunk_calls.
    + reflexivity.
  - destruct fuel as [|fuel]; [lia|].
    assert (Hi : readErr (reader i) = readNil) by (apply Hnil; lia).
    destruct (IH (S i) fuel) as (calls & Hrun & Hprinted & Hcalls & Heq).
    + intros j Hj. apply Hnil. lia.
    + replace (S i + n)%nat with (i + S n)%nat by lia. exact Hend.
    + lia.
    + replace (S i + n)%nat with (i + S n)%nat in Hrun by lia.
      eexists. split; [|split; [|split]].
      * cbn [readerToStream]. rewrite Hi, Hrun. reflexivity.
      * rewrite printed_app, printed_chunk, Hprinted. reflexivity.
      * apply Forall_app. split; [apply chunk_calls | exact Hcalls].
      * cbn [callsFrom]. unfold chunkCall. now rewrite Heq.
Qed.

(** X11: if the reads of a reader succeed until one reports the end of the
    stream, [readerToStream] returns nil after that read, and the calls of the
    sink are exactly these, in this order: one call for each read that gave at
    least one byte, with the format of a plain string and the bytes of that
    read, the read that came with the end of the stream included.  What the
    sink printed is therefore the bytes of all the reads, in order.  The
    goroutine adds no call of its own. *)
Theorem readerToStream_delivers_all_until_EOF
    (reader : Reader) (sink : stream) (k fuel : nat)
    (Hnil : forall j, (j < k)%nat -> readErr (reader j) = readNil)
    (Heof : readErr (reader k) = readEOF)
    (Hfuel : (k < fuel)%nat) :
  readerToStream fuel reader 0 sink = Some (callsFrom reader sink 0 k, None)
  /\ printed (callsFrom reader sink 0 k) = chunksFrom reader 0 k
  /\ Forall (isChunkCall sink) (callsFrom reader sink 0 k)
  /\ streamGoroutine fuel reader sink = Some (callsFrom reader sink 0 k).
Proof.
  destruct (readerToStream_reads reader sink k 0 fuel)
    as (calls & Hrun & Hp & Hc & Heq).
  - intros j Hj. apply Hnil. lia.
  - cbn [Nat.add]. rewrite Heof. discriminate.
  - exact Hfuel.
  - cbn [Nat.add] in Hrun. rewrite Heof in Hrun. subst calls.
    repeat split; try assumption.
    unfold streamGoroutine. now rewrite Hrun.
Qed.

Lemma readerToStream_delivers_all_until_EOF_witness :
  let reader : Reader := fun i =>
    match i with
    | O => mkRead "ab" readNil
    | 1%nat => mkRead EmptyString readNil
    | _ => mkRead "c" readEOF
    end in
  (forall j, (j < 2)%nat -> readErr (reader j) = readNil)
  /\ readErr (reader 2%nat) = readEOF
  /\ readerToStream 3 reader 0 outStream
     = Some ([mkCall outStream "%s" [VString "ab"];
              mkCall outStream "%s" [VString "c"]], None)
  /\ printed [mkCall outStream "%s" [VString "ab"];
              mkCall outStream "%s" [VString "c"]] = "abc"%string.
Proof.
  cbv zeta.
  assert (Hnil : forall j, (j < 2)%nat ->
            readErr (match j with
                     | O => mkRead "ab" readNil
                     | 1%nat => mkRead EmptyString readNil
                     | _ => mkRead "c" readEOF
                     end) = readNil).
  { intros j Hj. destruct j as [|[|j]]; [reflexivity | reflexivity | lia]. }
  split; [exact Hnil | split; [reflexivity |]].
  destruct (readerToStream_delivers_all_until_EOF
              (fun i => match i with
                        | O => mkRead "ab" readNil
                        | 1%nat => mkRead EmptyString readNil
                        | _ => mkRead "c" readEOF
                        end)
              outStream 2 3 Hnil eq_refl (Nat.lt_succ_diag_r 2))
    as (Hrun & Hprinted & _).
  split; [exact Hrun | exact Hprinted].
Defined.

(** X12: if a read fails with an error other than the end of the stream,
    [readerToStream] returns that error after handing the bytes of that read
    and of all earlier reads to the sink, and the goroutine of [ExecCommand]
    then reports the failure once, to the same sink, as its last call. *)
Theorem readerToStream_failure_reported_after_data
    (reader : Reader) (sink : stream) (k fuel : nat) (err : string)
    (Hnil : forall j, (j < k)%nat -> readErr (reader j) = readNil)
    (Hfail : readErr (reader k) = readFailed err)
    (Hfuel : (k < fuel)%nat) :
  exists calls,
    readerToStream fuel reader 0 sink = Some (calls, Some err)
    /\ printed calls = chunksFrom reader 0 k
    /\ Forall (isChunkCall sink) calls
    /\ streamGoroutine fuel reader sink
       = Some (calls ++ [mkCall sink (failedToStream sink) [VString err]])
    /\ printed [mkCall sink (failedToStream sink) [VString err]]
       = (match sink with
          | outStream => "Failed to stream stdout from command: "
          | errStream => "Failed to stream stderr from command: "
          end ++ err ++ LF)%string.
Proof.
  destruct (readerToStream_reads reader sink k 0 fuel)
    as (calls & Hrun & Hp & Hc & _).
  - intros j Hj. apply Hnil. lia.
  - cbn [Nat.add]. rewrite Hfail. discriminate.
  - exact Hfuel.
  - cbn [Nat.add] in Hrun. rewrite Hfail in Hrun.
    exists calls. repeat split; try assumption.
    + unfold streamGoroutine. now rewrite Hrun.
    + destruct sink; cbn [printed format operands failedToStream];
        rewrite append_nil_r; reflexivity.
Qed.

Lemma readerToStream_failure_reported_after_data_witness :
  let reader : Reader := fun i =>
    match i with
    | O => mkRead "ab" readNil
    | _ => mkRead "c" (readFailed "closed pipe")
    end in
  (forall j, (j < 1)%nat -> readErr (reader j) = readNil)
  /\ readErr (reader 1%nat) = readFailed "closed pipe"
  /\ exists calls,
       readerToStream 2 reader 0 errStream = Some (calls, Some "closed pipe"%string)
       /\ printed calls = "abc"%string.
Proof.
  cbv zeta.
  assert (Hnil : forall j, (j < 1)%nat ->
            readErr (match j with
                     | O => mkRead "ab" readNil
                     | _ => mkRead "c" (readFailed "closed pipe")
                     end) = readNil).
  { intros j Hj. destruct j as [|j]; [reflexivity | lia]. }
  split; [exact Hnil | split; [reflexivity |]].
  destruct (readerToStream_failure_reported_after_data
              (fun i => match i with
                        | O => mkRead "ab" readNil
                        | _ => mkRead "c" (readFailed "closed pipe")
                        end)
              errStream 1 2 "closed pipe" Hnil eq_refl (Nat.lt_succ_diag_r 1))
    as (calls & Hrun & Hprinted & _).
  exists calls. split; [exact Hrun | exact Hprinted].
Defined.

(** * Outcomes of ExecCommand *)

Lemma ExitStatus_range (ws : WaitStatus) : -1 <= ExitStatus ws <= 255.
Proof.
  unfold ExitStatus. destruct (negb (Exited ws)); [lia|].
  assert (E : Z.land (Z.shiftr ws 8) 255 = Z.shiftr ws 8 mod 256).
  { change 255 with (Z.ones 8). now rewrite Z.land_ones by lia. }
  rewrite E.
  pose proof (Z.mod_pos_bound (Z.shiftr ws 8) 256 eq_refl) as H. lia.
Qed.

(** X13: [ExecCommand] ends in one of five ways: nil; a user resolution
    error; a start error; a wait error; or the exit error of a process whose
    status is not zero.  Its own flow calls a sink in the last case only, once,
    on the stderr sink, with an exit code between -1 and 255; it never calls
    the stdout sink. *)
Theorem ExecCommand_outcomes
    (os : OS) (workingDir user cmdName : string) (args : list string) :
  ExecCommand os workingDir user cmdName args = ([], None)
  \/ (exists err, ExecCommand os workingDir user cmdName args
                  = ([], Some (errorString ("cmd user resolve: " ++ err))))
  \/ (exists err, ExecCommand os workingDir user cmdName args
                  = ([], Some (errorString ("cmd start: " ++ err))))
  \/ (exists err, ExecCommand os workingDir user cmdName args
                  = ([], Some (errorString ("cmd wait: " ++ err))))
  \/ (exists ws,
        ExitStatus ws <> 0 /\ -1 <= ExitStatus ws <= 255
        /\ ExecCommand os workingDir user cmdName args
           = ([mkCall errStream ("Command exited with %d" ++ LF)
                 [VInt (ExitStatus ws)]],
              Some (ExitError ws))).
Proof.
  unfold ExecCommand.
  destruct (prepare os workingDir user cmdName args) as [e|cmd] eqn:Hprep.
  - right. left. unfold prepare in Hprep.
    destruct (nonEmpty user); [|discriminate Hprep].
    destruct (ResolveChown os user) as [[uid gid]|err]; [discriminate Hprep|].
    inversion Hprep. exists err. reflexivity.
  - destruct (Start os cmd) as [err|].
    + right. right. left. exists err. reflexivity.
    + unfold Wait. destruct (processWait os cmd) as [ws|err].
      * destruct (ExitStatus ws =? 0) eqn:Hz.
        -- destruct (copyError os cmd) as [err|]; cbn [option_map].
           ++ right. right. right. left. exists err. reflexivity.
           ++ left. reflexivity.
        -- right. right. right. right. exists ws.
           apply Z.eqb_neq in Hz.
           split; [exact Hz | split; [apply ExitStatus_range | reflexivity]].
      * right. right. right. left. exists err. reflexivity.
Qed.

(** X14: [ExecCommand] returns nil exactly when the command could be
    prepared and started, the process ended with exit status zero and
    copying its output raised no error. *)
Theorem ExecCommand_nil_iff
    (os : OS) (workingDir user cmdName : string) (args : list string) :
  snd (ExecCommand os workingDir user cmdName args) = None
  <-> exists cmd ws,
        prepare os workingDir user cmdName args = inr cmd
        /\ Start os cmd = None
        /\ processWait os cmd = Ok ws
        /\ ExitStatus ws = 0
        /\ copyError os cmd = None.
Proof.
  unfold ExecCommand. split.
  - destruct (prepare os workingDir user cmdName args) as [e|cmd];
      [discriminate|].
    destruct (Start os cmd) as [err|] eqn:Hstart; [discriminate|].
    unfold Wait.
    destruct (processWait os cmd) as [ws|err] eqn:Hwait; [|discriminate].
    destruct (ExitStatus ws =? 0) eqn:Hz; [|discriminate].
    destruct (copyError os cmd) as [err|] eqn:Hcopy; [discriminate|].
    intros _. exists cmd, ws. apply Z.eqb_eq in Hz. repeat split; assumption.
  - intros (cmd & ws & Hprep & Hstart & Hwait & Hz & Hcopy).
    rewrite Hprep, Hstart. unfold Wait. rewrite Hwait, Hz, Hcopy. reflexivity.
Qed.

Lemma beforeColon_prefix (user : string) :
  allBytes (fun b => negb (runeOfByte b =? 58)) (beforeColon user) = true
  /\ (user = beforeColon user
      \/ exists rest, user = (beforeColon user ++ String ":" rest)%string).
Proof.
  induction user as [|c user [IH1 IH2]]; cbn [beforeColon].
  - split; [reflexivity | left; reflexivity].
  - destruct (runeOfByte c =? 58) eqn:Hc.
    + split; [reflexivity |]. right. exists user. cbn [append].
      f_equal. apply Z.eqb_eq in Hc. unfold runeOfByte in Hc.
      rewrite <- (ascii_N_embedding c).
      replace (N_of_ascii c) with 58%N by lia. reflexivity.
    + split.
      * cbn [allBytes]. rewrite Hc. exact IH1.
      * destruct IH2 as [E|[rest E]].
        -- left. now rewrite <- E.
        -- right. exists rest. cbn [append]. now rewrite <- E.
Qed.

(** X15: when a user is given and resolves to a uid and a gid, the command is
    prepared with both reduced to 32 bits as its credential, in its own
    process group, and its environment is the environment of the caller
    followed by one more entry, HOME=/home/ and the user specification up to,
    not including, its first colon.  Its arguments are the command name and
    the given arguments, its directory the working directory, and its path
    the command name, or what the path lookup found for a name without
    directory. *)
Theorem prepare_with_user
    (os : OS) (workingDir user cmdName : string) (args : list string)
    (uid gid : Z)
    (Huser : nonEmpty user = true)
    (Hresolve : ResolveChown os user = Ok (uid, gid)) :
  exists cmd name,
    prepare os workingDir user cmdName args = inr cmd
    /\ Env cmd = Environ os ++ [("HOME=/home/" ++ name)%string]
    /\ allBytes (fun b => negb (runeOfByte b =? 58)) name = true
    /\ (user = name \/ exists rest, user = (name ++ String ":" rest)%string)
    /\ sysProcAttr cmd
       = Some (mkSysProcAttr true (Some (mkCredential (uid mod 2 ^ 32) (gid mod 2 ^ 32))))
    /\ 0 <= uid mod 2 ^ 32 < 2 ^ 32 /\ 0 <= gid mod 2 ^ 32 < 2 ^ 32
    /\ Path cmd
       = (if String.eqb (Base cmdName) cmdName
             && nonEmpty (fst (LookPath os cmdName))
          then fst (LookPath os cmdName) else cmdName)
    /\ cmdArgs cmd = cmdName :: args
    /\ Dir cmd = workingDir.
Proof.
  destruct (beforeColon_prefix user) as [Hcolon Hprefix].
  eexists. exists (beforeColon user).
  split; [unfold prepare; rewrite Huser, Hresolve; reflexivity |].
  cbn [Env sysProcAttr Path cmdArgs Dir].
  repeat split; try assumption; try reflexivity;
    try (apply Z.mod_pos_bound; reflexivity).
  - unfold Command.
    destruct (String.eqb (Base cmdName) cmdName); [|reflexivity].
    destruct (LookPath os cmdName) as [lp err]. cbn [fst andb Path].
    destruct (nonEmpty lp); reflexivity.
  - unfold Command.
    destruct (String.eqb (Base cmdName) cmdName); [|reflexivity].
    destruct (LookPath os cmdName) as [lp err]. reflexivity.
  - unfold Command.
    destruct (String.eqb (Base cmdName) cmdName);
      [destruct (LookPath os cmdName) as [lp err]|];
      destruct workingDir; reflexivity.
Qed.

Lemma prepare_with_user_witness :
  let os := mkOS ["PATH=/bin"%string; "HOME=/root"%string]
              (fun _ => Ok (1000, 4294967297)) (fun _ => None)
              (fun _ => Ok 0) (fun _ => None)
              (fun _ => ("/usr/bin/ls"%string, None)) in
  nonEmpty "app:staff" = true
  /\ ResolveChown os "app:staff" = Ok (1000, 4294967297)
  /\ exists cmd,
       prepare os "/srv" "app:staff" "ls" ["-l"%string] = inr cmd
       /\ Env cmd = ["PATH=/bin"; "HOME=/root"; "HOME=/home/app"]%string
       /\ sysProcAttr cmd
          = Some (mkSysProcAttr true (Some (mkCredential 1000 1)))
       /\ Path cmd = "/usr/bin/ls"%string
       /\ cmdArgs cmd = ["ls"; "-l"]%string.
Proof.
  split; [reflexivity | split; [reflexivity |]].
  destruct (prepare_with_user
              (mkOS ["PATH=/bin"%string; "HOME=/root"%string]
                 (fun _ => Ok (1000, 4294967297)) (fun _ => None)
                 (fun _ => Ok 0) (fun _ => None)
                 (fun _ => ("/usr/bin/ls"%string, None)))
              "/srv" "app:staff" "ls" ["-l"%string] 1000 4294967297
              eq_refl eq_refl)
    as (cmd & name & Hprep & _).
  exists cmd. split; [exact Hprep |].
  cbv in Hprep. inversion Hprep. repeat split; reflexivity.
Defined.

(** * The escape flag *)








(** * Bytes, not characters *)









